(** * GPU vector distribution patterns

    A model of
    [compiler/src/iree/compiler/Codegen/Common/GPU/GPUDistributionPatterns.cpp]:
    the index computation [computeSIMDIndex], the permutation reduction
    [getReducedPermutation] and the four distribution patterns
    (splat constants, elementwise operations, transfer reads and writes).

    The C++ functions build IR through a rewriter.  Here a function that
    takes a [RewriterBase &] becomes a function in the [Rewrite] monad: it
    threads the list of operations created so far and may abort (a failed
    [assert], [llvm::report_fatal_error], a call through a null handle).
    A pattern returns a [LogicalResult] inside that monad. *)

From Stdlib Require Import ZArith List Lia Bool.
From stdpp Require Import gmap strings list fin_maps.

Local Open Scope Z_scope.

(** ** Layout model *)

(** [LayoutDimension]: the labels this file names are [LANEX], [LANEY],
    [LANEZ] (lane coordinates) and [VECTORX] (the vectorised axis); the
    enumeration is declared outside this file and [OTHER n] stands for its
    remaining members. *)
Inductive LayoutDimension : Type :=
  | LANEX
  | LANEY
  | LANEZ
  | VECTORX
  | OTHER (n : nat).

#[global] Instance LayoutDimension_eq_dec : EqDecision LayoutDimension.
Proof. solve_decision. Defined.

Definition isLane (d : LayoutDimension) : bool :=
  match d with
  | LANEX | LANEY | LANEZ => true
  | _ => false
  end.

(** [PerDimLayoutAttr]: labels and shapes of one vector dimension, first
    entry slowest-changing. *)
Record PerDimLayoutAttr : Type := mkPerDimLayout {
  getLabels : list LayoutDimension;
  getShapes : list Z
}.

(** [llvm::zip] of the labels and the shapes (stops at the shorter list). *)
Definition entries (d : PerDimLayoutAttr) : list (LayoutDimension * Z) :=
  combine (getLabels d) (getShapes d).

(** Modelled from the spec: the layout descriptor, "ordered sequence of
    PerDimLayout plus a 3-element lane-grid extent (X,Y,Z), fixed at
    construction"; the attribute's declaration is outside this file. *)
Record LayoutAttr : Type := mkLayout {
  getLayouts : list PerDimLayoutAttr;
  getLaneGrid : Z * Z * Z
}.

(** Modelled from the spec: [PerDimLayoutAttr::getShape(label)], the extent
    of [label] in one dimension's list, if present. *)
Fixpoint lookupShape (label : LayoutDimension) (es : list (LayoutDimension * Z))
  : option Z :=
  match es with
  | [] => None
  | (l, s) :: rest => if decide (l = label) then Some s else lookupShape label rest
  end.

Definition getShape (d : PerDimLayoutAttr) (label : LayoutDimension) : option Z :=
  lookupShape label (entries d).

(** Modelled from the spec: [distributedShape(layout)], "product, per
    dimension, of all non-lane-label extents". *)
Definition distributedDim (d : PerDimLayoutAttr) : Z :=
  fold_right (fun '(l, s) acc => if isLane l then acc else s * acc) 1 (entries d).

Definition LayoutAttr_getDistributedShape (l : LayoutAttr) : list Z :=
  List.map distributedDim (getLayouts l).

(** [VectorLayoutInterface]: the interface the patterns see.  [LayoutAttr]
    is one implementation; any other implementation is known here only
    through the interface method this file calls. *)
Inductive VectorLayoutInterface : Type :=
  | IsLayoutAttr (l : LayoutAttr)
  | OtherLayout (distributedShape : list Z).

Definition getDistributedShape (l : VectorLayoutInterface) : list Z :=
  match l with
  | IsLayoutAttr la => LayoutAttr_getDistributedShape la
  | OtherLayout shape => shape
  end.

(** [dyn_cast<LayoutAttr>] of the handle found in the signature: the
    [LayoutAttr] when the handle holds one, the null [LayoutAttr] ([None])
    when it holds a layout of another kind or nothing. *)
Definition dyn_cast_LayoutAttr (l : option VectorLayoutInterface) : option LayoutAttr :=
  match l with
  | Some (IsLayoutAttr la) => Some la
  | _ => None
  end.

(** ** Iteration state *)

(** Modelled from the spec: [LayoutIterator::State], "a mapping from
    DimensionLabel to a current integer position, valid only for labels
    present in the layout being iterated".  An insertion-ordered list of
    (label, position); [lookup] of an absent label gives the default
    iterator, at position 0. *)
Definition State : Type := list (LayoutDimension * Z).

Fixpoint State_lookup (state : State) (label : LayoutDimension) : Z :=
  match state with
  | [] => 0
  | (l, p) :: rest => if decide (l = label) then p else State_lookup rest label
  end.

(** ** Affine expressions and maps *)

Inductive AffineBinaryOp : Type := Add | Mul | Mod | FloorDiv | CeilDiv.

(** Expression trees as the code combines them; MLIR additionally
    simplifies a tree when it is built, which keeps its value. *)
Inductive AffineExpr : Type :=
  | AffineDimExpr (position : nat)
  | AffineSymbolExpr (position : nat)
  | AffineConstantExpr (value : Z)
  | AffineBinaryOpExpr (kind : AffineBinaryOp) (lhs rhs : AffineExpr).

Definition getAffineConstantExpr (c : Z) : AffineExpr := AffineConstantExpr c.

Declare Scope affine_scope.
Delimit Scope affine_scope with affine.
Bind Scope affine_scope with AffineExpr.
Notation "a + b" := (AffineBinaryOpExpr Add a b) : affine_scope.
Notation "a * b" := (AffineBinaryOpExpr Mul a b) : affine_scope.

Record AffineMap : Type := mkAffineMap {
  getNumDims : nat;
  getNumSymbols : nat;
  getResults : list AffineExpr
}.

Definition getNumResults (m : AffineMap) : nat := length (getResults m).

Fixpoint evalAffineExpr (dims syms : list Z) (e : AffineExpr) : Z :=
  match e with
  | AffineDimExpr p => nth p dims 0
  | AffineSymbolExpr p => nth p syms 0
  | AffineConstantExpr c => c
  | AffineBinaryOpExpr k a b =>
      let x := evalAffineExpr dims syms a in
      let y := evalAffineExpr dims syms b in
      match k with
      | Add => x + y
      | Mul => x * y
      | Mod => x mod y
      | FloorDiv => x / y
      | CeilDiv => - ((- x) / y)
      end
  end.

(** ** Types, attributes, values and operations *)

Inductive ScalarType : Type :=
  | IndexType
  | IntegerType (width : N)
  | FloatType (width : N).

Inductive Ty : Type :=
  | Scalar (e : ScalarType)
  | VectorType (shape : list Z) (elementType : ScalarType)
  | MemRefType (shape : list Z) (elementType : ScalarType)
  | RankedTensorType (shape : list Z) (elementType : ScalarType).

(** [ShapedType::getElementType]. *)
Definition getElementType (t : Ty) : ScalarType :=
  match t with
  | Scalar e => e
  | VectorType _ e | MemRefType _ e | RankedTensorType _ e => e
  end.

(** A scalar constant: the payload of a splat, or one element of a dense
    constant. *)
Inductive ScalarAttr : Type :=
  | IntegerAttr (value : Z)
  | FloatAttr (bits : Z).

(** [SplatElementsAttr] is a dense elements attribute all of whose elements
    are one scalar; [DenseElementsAttr] here holds the constants that are
    not splats. *)
Inductive Attribute : Type :=
  | ScalarValueAttr (a : ScalarAttr) (type : ScalarType)
  | SplatElementsAttr (type : Ty) (splatValue : ScalarAttr)
  | DenseElementsAttr (type : Ty) (elements : list ScalarAttr)
  | AffineMapAttr (map : AffineMap)
  | FastMathFlagsAttr (flags : N)
  | DenseI64ArrayAttr (values : list Z)
  | BoolArrayAttr (values : list bool)
  | StringAttr (s : string)
  | UnitAttr.

(** A value is either defined before the rewrite starts (a block argument,
    or the result of an operation the patterns did not create: lane id,
    base indices, memrefs) or the [resultNumber]-th result of an operation. *)
Inductive Value : Type :=
  | Existing (id : nat) (type : Ty)
  | OpResult (owner : Operation) (resultNumber : nat)
with Operation : Type :=
  | mkOperation (name : string) (operands : list Value) (resultTypes : list Ty)
                (attributes : gmap string Attribute).

Definition getName (op : Operation) : string :=
  match op with mkOperation n _ _ _ => n end.
Definition getOperands (op : Operation) : list Value :=
  match op with mkOperation _ os _ _ => os end.
Definition getResultTypes (op : Operation) : list Ty :=
  match op with mkOperation _ _ ts _ => ts end.
Definition getAttrs (op : Operation) : gmap string Attribute :=
  match op with mkOperation _ _ _ a => a end.

Definition getAttr (op : Operation) (name : string) : option Attribute :=
  getAttrs op !! name.

Definition setAttr (op : Operation) (name : string) (a : Attribute) : Operation :=
  match op with
  | mkOperation n os ts attrs => mkOperation n os ts (<[name := a]> attrs)
  end.

Definition getResult (op : Operation) (k : nat) : Value := OpResult op k.

Definition getResults_of (op : Operation) : list Value :=
  List.map (OpResult op) (seq 0 (length (getResultTypes op))).

(** [Value::getType]; a result number out of range has no type, and gets
    the index type here. *)
Definition getType (v : Value) : Ty :=
  match v with
  | Existing _ t => t
  | OpResult op k => nth k (getResultTypes op) (Scalar IndexType)
  end.

(** [dyn_cast<VectorValue>]: the value's element type and shape when its
    type is a vector type. *)
Definition dyn_cast_VectorValue (v : Value) : option (list Z * ScalarType) :=
  match getType v with
  | VectorType shape e => Some (shape, e)
  | _ => None
  end.

(** ** The rewriter *)

(** What the rewriter has done so far: the operations created, in creation
    order, the operations replaced (with the values that stand for their
    results) and the operations erased. *)
Record RewriterState : Type := mkRewriterState {
  created : list Operation;
  replaced : list (Operation * list Value);
  erased : list Operation
}.

Definition emptyRewriterState : RewriterState := mkRewriterState [] [] [].

Inductive Fatal : Type :=
  | AssertionFailure (message : string)
  | ReportFatalError (message : string)
  | NullDereference.

Inductive Outcome (A : Type) : Type :=
  | Done (a : A) (st : RewriterState)
  | Abort (f : Fatal).
Arguments Done {A} a st.
Arguments Abort {A} f.

Definition Rewrite (A : Type) : Type := RewriterState -> Outcome A.

Definition ret {A} (a : A) : Rewrite A := fun st => Done a st.

Definition bind {A B} (m : Rewrite A) (k : A -> Rewrite B) : Rewrite B :=
  fun st =>
    match m st with
    | Done a st' => k a st'
    | Abort f => Abort f
    end.

Definition abort {A} (f : Fatal) : Rewrite A := fun _ => Abort f.

Notation "x <- m ;; k" := (bind m (fun x => k))
  (at level 100, m at next level, right associativity).
Notation "m ;;; k" := (bind m (fun _ => k))
  (at level 100, right associativity).

(** [assert(cond && message)], in a build with assertions enabled. *)
Definition assert (cond : bool) (message : string) : Rewrite unit :=
  if cond then ret tt else abort (AssertionFailure message).

(** [rewriter.create<...>(...)]: the operation is appended to the IR. *)
Definition create (op : Operation) : Rewrite Operation :=
  fun st => Done op (mkRewriterState (created st ++ [op]) (replaced st) (erased st)).

(** [rewriter.eraseOp]. *)
Definition eraseOp (op : Operation) : Rewrite unit :=
  fun st => Done tt (mkRewriterState (created st) (replaced st) (erased st ++ [op])).

(** Modelled from the spec: [replaceOpWithDistributedValues], the driver
    primitive that "replace[s] an operation's results"; it records the
    distributed values that stand for the results of [op]. *)
Definition replaceOpWithDistributedValues (op : Operation) (values : list Value)
  : Rewrite unit :=
  fun st => Done tt (mkRewriterState (created st) (replaced st ++ [(op, values)]) (erased st)).

Fixpoint mapM {A B} (f : A -> Rewrite B) (l : list A) : Rewrite (list B) :=
  match l with
  | [] => ret []
  | x :: rest => y <- f x ;; ys <- mapM f rest ;; ret (y :: ys)
  end.

Fixpoint foldM {A B} (f : A -> B -> Rewrite A) (l : list B) (a : A) : Rewrite A :=
  match l with
  | [] => ret a
  | x :: rest => a' <- f a x ;; foldM f rest a'
  end.

Inductive LogicalResult : Type := success | failure.

(** ** Operations this file creates *)

Definition arith_ConstantOp (type : Ty) (value : Attribute) : Operation :=
  mkOperation "arith.constant" [] [type] {["value" := value]}.

Definition arith_ConstantIndexOp (c : Z) : Operation :=
  arith_ConstantOp (Scalar IndexType) (ScalarValueAttr (IntegerAttr c) IndexType).

Definition affine_AffineApplyOp (map : AffineMap) (operands : list Value) : Operation :=
  mkOperation "affine.apply" operands [Scalar IndexType] {["map" := AffineMapAttr map]}.

Definition arith_AddIOp (lhs rhs : Value) : Operation :=
  mkOperation "arith.addi" [lhs; rhs] [getType lhs] ∅.

(** [affine::delinearizeIndex] is a helper of MLIR: it emits the index
    arithmetic that splits [linearIndex] along [basis] and returns one value
    per basis entry.  The arithmetic it emits is kept as one node with one
    result per basis entry. *)
Definition affine_delinearizeIndexOp (linearIndex : Value) (basis : list Value)
  : Operation :=
  mkOperation "affine.delinearize_index" (linearIndex :: basis)
              (List.map (fun _ => Scalar IndexType) basis) ∅.

(** [succeeded] of a [FailureOr]. *)
Definition succeeded {A} (r : option A) : bool :=
  match r with Some _ => true | None => false end.

(** The [FailureOr] it returns is a success on every input. *)
Definition delinearizeIndex (linearIndex : Value) (basis : list Value)
  : Rewrite (option (list Value)) :=
  op <- create (affine_delinearizeIndexOp linearIndex basis) ;;
  ret (Some (getResults_of op)).

(** ** Run-time value of index computations *)

(** What [affine::delinearizeIndex] computes: with the divisors
    [basis[1]*...*basis[n-1]], ..., [basis[n-1]], each result is the
    quotient of the running remainder by the next divisor, and the last
    result is the final remainder (row-major decomposition; the first basis
    entry is not used). *)
Fixpoint delinearize (linear : Z) (basis : list Z) : list Z :=
  match basis with
  | [] => []
  | _ :: rest =>
      match rest with
      | [] => [linear]
      | _ => let divisor := fold_right Z.mul 1 rest in
             (linear / divisor) :: delinearize (linear mod divisor) rest
      end
  end.

Fixpoint sequence (l : list (option Z)) : option (list Z) :=
  match l with
  | [] => Some []
  | Some x :: rest => match sequence rest with Some xs => Some (x :: xs) | None => None end
  | None :: _ => None
  end.

(** The run-time value of an index-typed value, given the run-time values
    [env] of the values defined before the rewrite: the integer that the
    index arithmetic denotes (the machine width of [index] is chosen when
    the arithmetic is lowered, after this pass).  Operations outside the
    index arithmetic have no value here. *)
Fixpoint evalValue (env : nat -> Z) (v : Value) {struct v} : option Z :=
  match v with
  | Existing id _ => Some (env id)
  | OpResult (mkOperation name operands _ attrs) k =>
      match sequence (List.map (evalValue env) operands) with
      | None => None
      | Some args =>
          if String.eqb name "arith.constant" then
            match attrs !! "value" with
            | Some (ScalarValueAttr (IntegerAttr c) _) => Some c
            | _ => None
            end
          else if String.eqb name "affine.apply" then
            match attrs !! "map" with
            | Some (AffineMapAttr m) =>
                match getResults m with
                | [e] => Some (evalAffineExpr (take (getNumDims m) args)
                                              (drop (getNumDims m) args) e)
                | _ => None
                end
            | _ => None
            end
          else if String.eqb name "affine.delinearize_index" then
            match args with
            | linear :: basis => nth_error (delinearize linear basis) k
            | [] => None
            end
          else if String.eqb name "arith.addi" then
            match args with
            | [x; y] => Some (x + y)
            | _ => None
            end
          else None
      end
  end.

(** ** [computeSIMDIndex] *)

(** [bindSymbols(ctx, threadX, threadY, threadZ)]. *)
Definition threadX : AffineExpr := AffineSymbolExpr 0.
Definition threadY : AffineExpr := AffineSymbolExpr 1.
Definition threadZ : AffineExpr := AffineSymbolExpr 2.

(** The body of the inner loop: one (label, shape) entry updates the pair
    (offset, stride). *)
Definition offsetStep (state : State) (acc : AffineExpr * AffineExpr)
  (entry : LayoutDimension * Z) : AffineExpr * AffineExpr :=
  let '(offset, stride) := acc in
  let '(label, shape) := entry in
  let position := State_lookup state label in
  let offset' :=
    match label with
    | LANEX => (offset + stride * threadX)%affine
    | LANEY => (offset + stride * threadY)%affine
    | LANEZ => (offset + stride * threadZ)%affine
    | _ => (offset + stride * getAffineConstantExpr position)%affine
    end in
  (offset', (stride * getAffineConstantExpr shape)%affine).

(** The inner loop, over [llvm::reverse(llvm::zip(labels, shapes))]. *)
Definition dimOffset (state : State) (dimLayout : PerDimLayoutAttr) : AffineExpr :=
  fst (fold_left (offsetStep state) (rev (entries dimLayout))
                 (getAffineConstantExpr 0, getAffineConstantExpr 1)).

Definition nullValue : Value := Existing 0 (Scalar IndexType).

(** [vals[i]] on a [SmallVector<Value>]. *)
Definition at_ (vals : list Value) (i : nat) : Value := nth i vals nullValue.

(** The body of the outer loop, for one dimension of the layout. *)
Definition computeSIMDIndexDim (state : State) (layout : LayoutAttr) (laneId : Value)
  (dimLayout : PerDimLayoutAttr) : Rewrite Value :=
  let offset := dimOffset state dimLayout in
  let '(laneDimX, laneDimY, laneDimZ) := getLaneGrid layout in
  cz <- create (arith_ConstantIndexOp laneDimZ) ;;
  cy <- create (arith_ConstantIndexOp laneDimY) ;;
  cx <- create (arith_ConstantIndexOp laneDimX) ;;
  let laneGrid := [getResult cz 0; getResult cy 0; getResult cx 0] in
  maybeReversedLaneGridVals <- delinearizeIndex laneId laneGrid ;;
  assert (succeeded maybeReversedLaneGridVals)
         "Failed to delinearize lane index" ;;;
  let reversedLaneGridVals := default [] maybeReversedLaneGridVals in
  let laneGridVals := [at_ reversedLaneGridVals 2;
                       at_ reversedLaneGridVals 1;
                       at_ reversedLaneGridVals 0] in
  let indexMap := mkAffineMap 0 3 [offset] in
  index <- create (affine_AffineApplyOp indexMap laneGridVals) ;;
  ret (getResult index 0).

Definition computeSIMDIndex (state : State) (layout : LayoutAttr) (laneId : Value)
  : Rewrite (list Value) :=
  mapM (computeSIMDIndexDim state layout laneId) (getLayouts layout).

(** The three lane coordinates (x, y, z) of a lane: the row-major
    decomposition of the lane identity against the grid ordered (Z, Y, X),
    read back as (X, Y, Z). *)
Definition laneCoordinates (layout : LayoutAttr) (lane : Z) : Z * Z * Z :=
  let '(laneDimX, laneDimY, laneDimZ) := getLaneGrid layout in
  let reversed := delinearize lane [laneDimZ; laneDimY; laneDimX] in
  (nth 2 reversed 0, nth 1 reversed 0, nth 0 reversed 0).

(** Follows the spec's words (section 4.3): "walk that dimension's (label,
    extent) list fastest- to slowest-changing, maintaining a running stride
    (initially 1) and offset (initially 0): for each entry, if its label is
    one of the three lane-coordinate labels, add stride * (corresponding
    lane coordinate) to offset; otherwise add stride * (state's concrete
    integer position for that label); then multiply stride by the entry's
    extent". *)
Definition contribution (state : State) (coords : Z * Z * Z) (label : LayoutDimension)
  : Z :=
  let '(x, y, z) := coords in
  match label with
  | LANEX => x
  | LANEY => y
  | LANEZ => z
  | _ => State_lookup state label
  end.

Fixpoint walkMixedRadix (state : State) (coords : Z * Z * Z)
  (fastestFirst : list (LayoutDimension * Z)) (stride offset : Z) : Z :=
  match fastestFirst with
  | [] => offset
  | (label, extent) :: rest =>
      walkMixedRadix state coords rest (stride * extent)
                     (offset + stride * contribution state coords label)
  end.

Definition mixedRadixAddress (state : State) (coords : Z * Z * Z)
  (dimLayout : PerDimLayoutAttr) : Z :=
  walkMixedRadix state coords (rev (entries dimLayout)) 1 0.

(** The operations a rewrite added to the IR. *)
Definition newOps (before after : RewriterState) : list Operation :=
  drop (length (created before)) (created after).

Definition isDelinearize (op : Operation) : bool :=
  String.eqb (getName op) "affine.delinearize_index".

(** ** The distribution signature *)

(** [DistributionSignature] maps the vector values of the operation under
    rewrite to their layouts; [signature[v]] is the null handle ([None])
    when [v] has no layout assigned. *)
Definition DistributionSignature : Type := Value -> option VectorLayoutInterface.

(** A call of [getDistributedShape] through a layout handle. *)
Definition callGetDistributedShape (layout : option VectorLayoutInterface)
  : Rewrite (list Z) :=
  match layout with
  | Some l => ret (getDistributedShape l)
  | None => abort NullDereference
  end.

(** Modelled from the spec: [DistributionPattern::getDistributed], the
    driver primitive that "fetch[es] the already-distributed form of a value
    given a layout": a conversion of [value] to the distributed shape of
    [layout]. *)
Definition vectorExt_ToSIMTOp (value : Value) (shape : list Z) : Operation :=
  mkOperation "iree_vector_ext.to_simt" [value]
              [VectorType shape (getElementType (getType value))] ∅.

Definition getDistributed (value : Value) (layout : option VectorLayoutInterface)
  : Rewrite Value :=
  shape <- callGetDistributedShape layout ;;
  op <- create (vectorExt_ToSIMTOp value shape) ;;
  ret (getResult op 0).

(** ** [DistributeConstants] *)

(** [arith::ConstantOp]: one result, whose type is [constantType], and the
    [value] attribute. *)
Record ConstantOp : Type := mkConstantOp {
  constantType : Ty;
  getValue : Attribute
}.

Definition ConstantOp_operation (c : ConstantOp) : Operation :=
  arith_ConstantOp (constantType c) (getValue c).

Definition ConstantOp_getResult (c : ConstantOp) : Value :=
  getResult (ConstantOp_operation c) 0.

(** [dyn_cast<SplatElementsAttr>] followed by [getSplatValue]. *)
Definition dyn_cast_SplatElementsAttr (a : Attribute) : option ScalarAttr :=
  match a with
  | SplatElementsAttr _ s => Some s
  | _ => None
  end.

Definition DistributeConstants_matchAndRewrite (constantOp : ConstantOp)
  (signature : DistributionSignature) : Rewrite LogicalResult :=
  let constant := ConstantOp_getResult constantOp in
  match dyn_cast_VectorValue constant with
  | None => ret failure
  | Some (_, elementType) =>
      (* Only handle splat values for now. *)
      match dyn_cast_SplatElementsAttr (getValue constantOp) with
      | None => ret failure
      | Some splatValue =>
          let layout := signature constant in
          (* Replace the original op with the distributed op. *)
          shape <- callGetDistributedShape layout ;;
          let vectorType := VectorType shape elementType in
          distributedOp <- create (arith_ConstantOp vectorType
                                     (SplatElementsAttr vectorType splatValue)) ;;
          replaceOpWithDistributedValues (ConstantOp_operation constantOp)
                                         [getResult distributedOp 0] ;;;
          ret success
      end
  end.

(** ** [DistributeElementwise] *)

(** [arith::FastMathFlagsAttr::getMnemonic()]. *)
Definition fastmathAttrName : string := "fastmath".

Definition distributeOperand (signature : DistributionSignature) (operand : Value)
  : Rewrite Value :=
  match dyn_cast_VectorValue operand with
  | Some _ => getDistributed operand (signature operand)
  | None => ret operand
  end.

Definition distributeResultType (signature : DistributionSignature) (result : Value)
  : Rewrite Ty :=
  match dyn_cast_VectorValue result with
  | Some (_, elementType) =>
      shape <- callGetDistributedShape (signature result) ;;
      ret (VectorType shape elementType)
  | None => ret (getType result)
  end.

(** [op->setAttr] on the operation that was created last: the operation is
    updated in place, in the IR as well. *)
Definition setAttrOfLastCreated (op : Operation) (name : string) (a : Attribute)
  : Rewrite Operation :=
  fun st =>
    let op' := setAttr op name a in
    Done op' (mkRewriterState (removelast (created st) ++ [op']) (replaced st) (erased st)).

Definition DistributeElementwise_matchAndRewrite (op : Operation)
  (signature : DistributionSignature) : Rewrite LogicalResult :=
  (* Get the distributed operands. *)
  operands <- mapM (distributeOperand signature) (getOperands op) ;;
  (* Get the new distributed vector types for the operation. *)
  resultTypes <- mapM (distributeResultType signature) (getResults_of op) ;;
  (* Replace the original op with the distributed op. *)
  distributedOp <- create (mkOperation (getName op) operands resultTypes ∅) ;;
  (* Propagate known attributes. *)
  distributedOp <- match getAttr op fastmathAttrName with
                   | Some attr => setAttrOfLastCreated distributedOp fastmathAttrName attr
                   | None => ret distributedOp
                   end ;;
  replaceOpWithDistributedValues op (getResults_of distributedOp) ;;;
  ret success.

(** ** [getReducedPermutation] *)

(** A function that returns a value or terminates the process. *)
Inductive Checked (A : Type) : Type :=
  | Returned (a : A)
  | Aborted (f : Fatal).
Arguments Returned {A} a.
Arguments Aborted {A} f.

Definition lift {A} (c : Checked A) : Rewrite A :=
  match c with
  | Returned a => ret a
  | Aborted f => abort f
  end.

(** [AffineMap::isProjectedPermutation()] of MLIR (zeros in the results
    not allowed): no symbols, no more results than inputs, and every result
    a dimension that no earlier result names. *)
Fixpoint distinctDims (results : list AffineExpr) (seen : list nat) : bool :=
  match results with
  | [] => true
  | AffineDimExpr p :: rest =>
      if bool_decide (p ∈ seen) then false else distinctDims rest (p :: seen)
  | _ :: _ => false
  end.

Definition isProjectedPermutation (m : AffineMap) : bool :=
  (getNumSymbols m =? 0)%nat
  && (getNumResults m <=? getNumDims m + getNumSymbols m)%nat
  && distinctDims (getResults m) [].

(** Arithmetic on [unsigned]: 32 bits, wrapping. *)
Definition wrapUnsigned (z : Z) : Z := z mod 2 ^ 32.

(** [assert] as the build has it: compiled out when [NDEBUG] is defined. *)
Definition assertUnless (NDEBUG : bool) (cond : bool) (message : string)
  : Checked unit :=
  if NDEBUG || cond then Returned tt else Aborted (AssertionFailure message).

(** The loop over the results of the map. *)
Fixpoint reduceResults (NDEBUG : bool) (leadingUnitDims : Z)
  (results : list AffineExpr) : Checked (list Z) :=
  match results with
  | [] => Returned []
  | dim :: rest =>
      (* Get this dim's position in the permutation map. *)
      match dim with
      | AffineDimExpr position =>
          let pos := Z.of_nat position in
          match assertUnless NDEBUG (leadingUnitDims <=? pos) "invalid permutation map" with
          | Aborted f => Aborted f
          | Returned _ =>
              let pos := wrapUnsigned (pos - leadingUnitDims) in
              match reduceResults NDEBUG leadingUnitDims rest with
              | Aborted f => Aborted f
              | Returned permutation => Returned (pos :: permutation)
              end
          end
      | _ => Aborted (ReportFatalError
                        "permutation map is not a projected permutation.")
      end
  end.

Definition getReducedPermutation (NDEBUG : bool) (permutationMap : AffineMap)
  : Checked (list Z) :=
  match assertUnless NDEBUG (isProjectedPermutation permutationMap)
          "permutation map should be a projected permutation." with
  | Aborted f => Aborted f
  | Returned _ =>
      let leadingUnitDims :=
        wrapUnsigned (Z.of_nat (getNumDims permutationMap)
                      - Z.of_nat (getNumResults permutationMap)) in
      reduceResults NDEBUG leadingUnitDims (getResults permutationMap)
  end.

(** Follows the spec's words (section 4.4): the "leading block of
    projected-out dimensions" of a map, counted as the domain positions
    before the first one that a result refers to. *)
Definition resultPositions (m : AffineMap) : list nat :=
  flat_map (fun e => match e with AffineDimExpr p => [p] | _ => [] end) (getResults m).

Fixpoint countLeadingUnused (used : list nat) (from count : nat) : nat :=
  match count with
  | O => O
  | S count' =>
      if bool_decide (from ∈ used) then O
      else S (countLeadingUnused used (S from) count')
  end.

Definition leadingProjectedDims (m : AffineMap) : nat :=
  countLeadingUnused (resultPositions m) 0 (getNumDims m).

Definition allDimExprs (m : AffineMap) : bool :=
  forallb (fun e => match e with AffineDimExpr _ => true | _ => false end) (getResults m).

(** ** Transfer patterns *)

(** Modelled from the spec: [permute(layout, perm)], a "new
    LayoutDescriptor whose per-dimension list is reordered by perm.  Fails
    if perm is not a valid permutation of the dimension count". *)
Definition isPermutationOf (n : nat) (perm : list Z) : bool :=
  (length perm =? n)%nat
  && forallb (fun p => (0 <=? p) && (p <? Z.of_nat n)) perm
  && bool_decide (NoDup perm).

Definition permute (layout : LayoutAttr) (perm : list Z) : Checked LayoutAttr :=
  if isPermutationOf (length (getLayouts layout)) perm then
    Returned (mkLayout
                (List.map (fun p => nth (Z.to_nat p) (getLayouts layout)
                                        (mkPerDimLayout [] []))
                          perm)
                (getLaneGrid layout))
  else Aborted (AssertionFailure "invalid permutation").

(** Conversion of an [int64_t] to [int]. *)
Definition truncateInt (z : Z) : Z := (z + 2 ^ 31) mod 2 ^ 32 - 2 ^ 31.

(** [getLoadStoreWidth]; [back()] of an empty list of dimensions has no
    value, which is reported as an abort. *)
Definition getLoadStoreWidth (layout : LayoutAttr) : Checked Z :=
  match last (getLayouts layout) with
  | None => Aborted (AssertionFailure "back() of an empty list")
  | Some fastestChanging =>
      match getShape fastestChanging VECTORX with
      | Some width => Returned (truncateInt width)
      | None => Returned 1
      end
  end.

Definition vector_LoadOp (unitType : Ty) (source : Value) (indices : list Value)
  : Operation :=
  mkOperation "vector.load" (source :: indices) [unitType] ∅.

Definition vector_InsertStridedSliceOp (source dest : Value) (offsets strides : list Z)
  : Operation :=
  mkOperation "vector.insert_strided_slice" [source; dest] [getType dest]
              {["offsets" := DenseI64ArrayAttr offsets;
                "strides" := DenseI64ArrayAttr strides]}.

Definition vector_ExtractStridedSliceOp (vector : Value) (offsets sizes strides : list Z)
  : Operation :=
  mkOperation "vector.extract_strided_slice" [vector]
              [VectorType sizes (getElementType (getType vector))]
              {["offsets" := DenseI64ArrayAttr offsets;
                "sizes" := DenseI64ArrayAttr sizes;
                "strides" := DenseI64ArrayAttr strides]}.

Definition vector_ExtractOp (vector : Value) (position : list Z) : Operation :=
  mkOperation "vector.extract" [vector]
              [match getType vector with
               | VectorType shape e => VectorType (drop (length position) shape) e
               | t => t
               end]
              {["static_position" := DenseI64ArrayAttr position]}.

Definition vector_StoreOp (valueToStore base : Value) (indices : list Value)
  : Operation :=
  mkOperation "vector.store" (valueToStore :: base :: indices) [] ∅.

(** [rewriter.getZeroAttr(vectorType)]. *)
Definition getZeroAttr (type : Ty) : Attribute :=
  match getElementType type with
  | FloatType _ => SplatElementsAttr type (FloatAttr 0)
  | _ => SplatElementsAttr type (IntegerAttr 0)
  end.

(** [vector::TransferReadOp] and [vector::TransferWriteOp], by the
    accessors of their operands and attributes. *)
Record TransferReadOp : Type := mkTransferReadOp {
  read_source : Value;
  read_indices : list Value;
  read_permutation_map : AffineMap;
  read_padding : Value;
  read_mask : option Value;
  read_in_bounds : list bool;
  read_vectorType : Ty
}.

Record TransferWriteOp : Type := mkTransferWriteOp {
  write_vector : Value;
  write_source : Value;
  write_indices : list Value;
  write_permutation_map : AffineMap;
  write_mask : option Value;
  write_in_bounds : list bool
}.

Definition optionalOperand (v : option Value) : list Value :=
  match v with Some x => [x] | None => [] end.

Definition TransferReadOp_operation (r : TransferReadOp) : Operation :=
  mkOperation "vector.transfer_read"
    (read_source r :: read_indices r ++ [read_padding r] ++ optionalOperand (read_mask r))
    [read_vectorType r]
    {["permutation_map" := AffineMapAttr (read_permutation_map r);
      "in_bounds" := BoolArrayAttr (read_in_bounds r)]}.

Definition TransferWriteOp_operation (w : TransferWriteOp) : Operation :=
  mkOperation "vector.transfer_write"
    (write_vector w :: write_source w :: write_indices w ++ optionalOperand (write_mask w))
    []
    {["permutation_map" := AffineMapAttr (write_permutation_map w);
      "in_bounds" := BoolArrayAttr (write_in_bounds w)]}.

Definition TransferReadOp_getResult (r : TransferReadOp) : Value :=
  getResult (TransferReadOp_operation r) 0.

(** A transfer needs masking (partial access) when it carries a mask or
    some dimension of it is not known to be in bounds. *)
Definition needsMasking (mask : option Value) (in_bounds : list bool) : bool :=
  match mask with
  | Some _ => true
  | None => negb (forallb id in_bounds)
  end.

(** What [DistributeXferLayoutAttr<OpTy>] asks of [OpTy], and the one method
    its two subclasses override. *)
Class XferOp (OpTy : Type) : Type := {
  getPermutationMap : OpTy -> AffineMap;
  getIndices : OpTy -> list Value;
  getSource : OpTy -> Value;
  (** [accessUnit(xferOp, memoryIndices, accIndices, accumulator,
      vectorLayout, memoryLayout, rewriter)] *)
  accessUnit : OpTy -> list Value -> list Z -> Value -> LayoutAttr -> LayoutAttr
               -> Rewrite Value
}.

(** [memoryIndices[i] = memoryIndices[i] + simdIndices[i - leading]] for
    the positions from [leading] on. *)
Fixpoint addOffsets (bases simdIndices : list Value) : Rewrite (list Value) :=
  match bases, simdIndices with
  | b :: bs, s :: ss =>
      sum <- create (arith_AddIOp b s) ;;
      rest <- addOffsets bs ss ;;
      ret (getResult sum 0 :: rest)
  | _, _ => ret bases
  end.

Section DistributeXferLayoutAttr.

(** Whether the build defines [NDEBUG]. *)
Variable NDEBUG : bool.

(** The pattern's field [laneId]. *)
Variable laneId : Value.

(** [LayoutIterator(vectorLayout, steps).apply(callback)] is declared
    outside this file: [visit layout steps] is the sequence of states the
    callback is invoked with, in order. *)
Variable visit : LayoutAttr -> list (LayoutDimension * Z) -> list State.

(** [state.computeSIMTIndex()], declared outside this file. *)
Variable computeSIMTIndex : State -> list Z.

Definition getMemoryIndices (state : State) (memoryLayout : LayoutAttr)
  (indices : list Value) : Rewrite (list Value) :=
  simdIndices <- computeSIMDIndex state memoryLayout laneId ;;
  let memoryIndices := indices in
  (* The memory layout has some projected leading dims that indices doesn't. *)
  let leadingProjectedDims :=
    Z.of_nat (length memoryIndices) - Z.of_nat (length simdIndices) in
  if leadingProjectedDims <? 0 then
    abort (AssertionFailure "index out of range")
  else
    let leading := Z.to_nat leadingProjectedDims in
    updated <- addOffsets (drop leading memoryIndices) simdIndices ;;
    ret (take leading memoryIndices ++ updated).

Context {OpTy : Type} `{XferOp OpTy}.

Definition accessMemory (xferOp : OpTy) (accumulator : Value)
  (vectorLayout : LayoutAttr) : Rewrite Value :=
  permutation <- lift (getReducedPermutation NDEBUG (getPermutationMap xferOp)) ;;
  memoryLayout <- lift (permute vectorLayout permutation) ;;
  loadWidth <- lift (getLoadStoreWidth memoryLayout) ;;
  let steps := [(VECTORX, loadWidth)] in
  foldM (fun accumulator state =>
           memoryIndices <- getMemoryIndices state memoryLayout (getIndices xferOp) ;;
           let accIndices := computeSIMTIndex state in
           accessUnit xferOp memoryIndices accIndices accumulator
                      vectorLayout memoryLayout)
        (visit vectorLayout steps) accumulator.

End DistributeXferLayoutAttr.

Definition TransferRead_accessUnit (readOp : TransferReadOp)
  (memoryIndices : list Value) (accIndices : list Z) (accumulator : Value)
  (vectorLayout memoryLayout : LayoutAttr) : Rewrite Value :=
  width <- lift (getLoadStoreWidth memoryLayout) ;;
  let unitType := VectorType [width] (getElementType (getType accumulator)) in
  load <- create (vector_LoadOp unitType (read_source readOp) memoryIndices) ;;
  inserted <- create (vector_InsertStridedSliceOp (getResult load 0) accumulator
                                                  accIndices [1]) ;;
  ret (getResult inserted 0).

Definition TransferWrite_accessUnit (writeOp : TransferWriteOp)
  (memoryIndices : list Value) (accIndices : list Z) (accumulator : Value)
  (vectorLayout memoryLayout : LayoutAttr) : Rewrite Value :=
  width <- lift (getLoadStoreWidth memoryLayout) ;;
  let strides := repeat 1 (length accIndices) in
  let shapes := repeat 1 (length accIndices) in
  match length accIndices with
  | O => abort (AssertionFailure "index out of range")
  | S lastIndex =>
      let shapes := <[lastIndex := width]> shapes in
      distributed <- getDistributed accumulator (Some (IsLayoutAttr vectorLayout)) ;;
      slice <- create (vector_ExtractStridedSliceOp distributed accIndices shapes strides) ;;
      result <- create (vector_ExtractOp (getResult slice 0) (repeat 0 lastIndex)) ;;
      create (vector_StoreOp (getResult result 0) (write_source writeOp) memoryIndices) ;;;
      ret accumulator
  end.

#[global] Instance TransferReadOp_XferOp : XferOp TransferReadOp := {
  getPermutationMap := read_permutation_map;
  getIndices := read_indices;
  getSource := read_source;
  accessUnit := TransferRead_accessUnit
}.

#[global] Instance TransferWriteOp_XferOp : XferOp TransferWriteOp := {
  getPermutationMap := write_permutation_map;
  getIndices := write_indices;
  getSource := write_source;
  accessUnit := TransferWrite_accessUnit
}.

Section TransferPatterns.

Variable NDEBUG : bool.
Variable laneId : Value.
Variable visit : LayoutAttr -> list (LayoutDimension * Z) -> list State.
Variable computeSIMTIndex : State -> list Z.

Definition DistributeTransferRead_matchAndRewrite (readOp : TransferReadOp)
  (signature : DistributionSignature) : Rewrite LogicalResult :=
  match dyn_cast_LayoutAttr (signature (TransferReadOp_getResult readOp)) with
  | None => ret failure
  | Some vectorLayout =>
      (* TODO: Return failure if we need masking. *)
      let elementType := getElementType (getType (read_source readOp)) in
      let vectorType :=
        VectorType (LayoutAttr_getDistributedShape vectorLayout) elementType in
      zero <- create (arith_ConstantOp vectorType (getZeroAttr vectorType)) ;;
      let acc := getResult zero 0 in
      readVec <- accessMemory NDEBUG laneId visit computeSIMTIndex
                              readOp acc vectorLayout ;;
      replaceOpWithDistributedValues (TransferReadOp_operation readOp) [readVec] ;;;
      ret success
  end.

Definition DistributeTransferWrite_matchAndRewrite (writeOp : TransferWriteOp)
  (signature : DistributionSignature) : Rewrite LogicalResult :=
  match dyn_cast_LayoutAttr (signature (write_vector writeOp)) with
  | None => ret failure
  | Some vectorLayout =>
      (* TODO: Return failure if we need masking. *)
      accessMemory NDEBUG laneId visit computeSIMTIndex
                   writeOp (write_vector writeOp) vectorLayout ;;;
      eraseOp (TransferWriteOp_operation writeOp) ;;;
      ret success
  end.

End TransferPatterns.

(** ** What one call of [computeSIMDIndex] creates *)

(** The operations one pass of the outer loop of [computeSIMDIndex] creates,
    in order: the three lane-grid constants (Z, Y, X), the decomposition of
    the lane identity, and the address of the dimension. *)
Definition laneGridConstants (layout : LayoutAttr) : list Operation :=
  let '(laneDimX, laneDimY, laneDimZ) := getLaneGrid layout in
  [arith_ConstantIndexOp laneDimZ; arith_ConstantIndexOp laneDimY;
   arith_ConstantIndexOp laneDimX].

Definition laneDelinearization (layout : LayoutAttr) (laneId : Value) : Operation :=
  affine_delinearizeIndexOp laneId
    (List.map (fun c => getResult c 0) (laneGridConstants layout)).

Definition laneGridVals (layout : LayoutAttr) (laneId : Value) : list Value :=
  let d := laneDelinearization layout laneId in
  [getResult d 2; getResult d 1; getResult d 0].

Definition simdIndexOp (state : State) (layout : LayoutAttr) (laneId : Value)
  (dimLayout : PerDimLayoutAttr) : Operation :=
  affine_AffineApplyOp (mkAffineMap 0 3 [dimOffset state dimLayout])
                       (laneGridVals layout laneId).

Definition simdIndexOps (state : State) (layout : LayoutAttr) (laneId : Value)
  (dimLayout : PerDimLayoutAttr) : list Operation :=
  laneGridConstants layout
  ++ [laneDelinearization layout laneId; simdIndexOp state layout laneId dimLayout].

Definition addCreated (st : RewriterState) (ops : list Operation) : RewriterState :=
  mkRewriterState (created st ++ ops) (replaced st) (erased st).

(** How many decompositions of the lane identity a rewrite created. *)
Definition decompositionsCreated (before after : RewriterState) : nat :=
  length (List.filter isDelinearize (newOps before after)).

(** ** Iteration states over a layout *)

Definition layoutLabels (layout : LayoutAttr) : list LayoutDimension :=
  flat_map (fun d => List.map fst (entries d)) (getLayouts layout).

(** Modelled from the spec (section 3): the extents of a layout are
    positive integers. *)
Definition positiveExtents (layout : LayoutAttr) : bool :=
  forallb (fun d => forallb (fun e => 0 <? snd e) (entries d)) (getLayouts layout).

Definition inRange (state : State) (entry : LayoutDimension * Z) : bool :=
  isLane (fst entry)
  || ((0 <=? State_lookup state (fst entry)) && (State_lookup state (fst entry) <? snd entry)).

(** Modelled from the spec (sections 3 and 4.2): an iteration state over
    [layout] holds positions for non-lane labels of the layout only, each
    within the extent of its label. *)
Definition stateOver (layout : LayoutAttr) (state : State) : bool :=
  forallb (fun e => negb (isLane (fst e)) && bool_decide (fst e ∈ layoutLabels layout))
          state
  && forallb (fun d => forallb (inRange state) (entries d)) (getLayouts layout).

(** The digits of a dimension's address, from the fastest-changing entry:
    each entry's contribution plus its extent times the value of the slower
    entries. *)
Fixpoint hornerValue (state : State) (coords : Z * Z * Z)
  (fastestFirst : list (LayoutDimension * Z)) : Z :=
  match fastestFirst with
  | [] => 0
  | (label, extent) :: rest =>
      contribution state coords label + extent * hornerValue state coords rest
  end.

(** The dimension count and the positions of a map are values of type
    [unsigned]. *)
Definition fitsUnsigned (m : AffineMap) : bool :=
  (Z.of_nat (getNumDims m) <? 2 ^ 32)
  && forallb (fun p => Z.of_nat p <? 2 ^ 32) (resultPositions m).

(** How the reduction ends on a map with a result that is not a
    dimension: at the first [assert] in a build with assertions, at
    [llvm::report_fatal_error] in a build without. *)
Definition broadcastFatal (NDEBUG : bool) : Fatal :=
  if NDEBUG
  then ReportFatalError "permutation map is not a projected permutation."
  else AssertionFailure "permutation map should be a projected permutation.".

(** ** A masked transfer *)

(** A transfer read of 8 floats from a 16-element buffer under a mask, whose
    result has the layout [(LANEX, 2), (VECTORX, 4)] on a grid of 2 lanes,
    and the transfer write of such a vector under the same mask. *)
Definition maskedLayout : LayoutAttr :=
  mkLayout [mkPerDimLayout [LANEX; VECTORX] [2; 4]] (2, 1, 1).

Definition maskedRead : TransferReadOp :=
  mkTransferReadOp
    (Existing 1 (MemRefType [16] (FloatType 32)))
    [Existing 2 (Scalar IndexType)]
    (mkAffineMap 1 0 [AffineDimExpr 0])
    (Existing 3 (Scalar (FloatType 32)))
    (Some (Existing 4 (VectorType [8] (IntegerType 1))))
    [false]
    (VectorType [8] (FloatType 32)).

Definition maskedWrite : TransferWriteOp :=
  mkTransferWriteOp
    (Existing 5 (VectorType [8] (FloatType 32)))
    (Existing 1 (MemRefType [16] (FloatType 32)))
    [Existing 2 (Scalar IndexType)]
    (mkAffineMap 1 0 [AffineDimExpr 0])
    (Some (Existing 4 (VectorType [8] (IntegerType 1))))
    [false].

Definition maskedSignature : DistributionSignature :=
  fun _ => Some (IsLayoutAttr maskedLayout).

(** ** Extents and digits of a dimension *)

(** The product of the extents of one dimension's list. *)
Definition dimExtent (d : PerDimLayoutAttr) : Z :=
  fold_right Z.mul 1 (List.map snd (entries d)).

(** The digit an entry contributes (a lane coordinate or a position of the
    state) lies within the entry's extent. *)
Definition digitInRange (state : State) (coords : Z * Z * Z)
  (entry : LayoutDimension * Z) : bool :=
  (0 <=? contribution state coords (fst entry))
  && (contribution state coords (fst entry) <? snd entry).

Definition digitsInRange (state : State) (coords : Z * Z * Z) (layout : LayoutAttr)
  : bool :=
  forallb (fun d => forallb (digitInRange state coords) (entries d)) (getLayouts layout).


(** ** What the elementwise pattern does to operands and result types *)

Definition isVectorValue (v : Value) : bool :=
  match dyn_cast_VectorValue v with Some _ => true | None => false end.




(** ** Well-formed maps and identity-like maps *)

(** Every dimension a result of the map names is a dimension of its
    domain. *)
Definition dimsInDomain (m : AffineMap) : bool :=
  forallb (fun p => (p <? getNumDims m)%nat) (resultPositions m).

(** The minor identity map from [n] dimensions onto the last [k] of them:
    (d0, ..., d(n-1)) -> (d(n-k), ..., d(n-1)). *)
Definition minorIdentityMap (n k : nat) : AffineMap :=
  mkAffineMap n 0 (List.map AffineDimExpr (seq (n - k) k)).

(** The identity permutation of [k] positions. *)
Definition identityPermutation (k : nat) : list Z := List.map Z.of_nat (seq 0 k).

(** ** Counting the operations a rewrite creates *)

(** How many of [ops] are named [name]. *)
Definition countNamed (name : string) (ops : list Operation) : nat :=
  length (List.filter (String.eqb name) (List.map getName ops)).

(** The names of the index arithmetic that [getMemoryIndices] creates. *)
Definition indexOpNames : list string :=
  ["arith.constant"; "affine.delinearize_index"; "affine.apply"; "arith.addi"]%string.

Definition isIndexOp (op : Operation) : Prop := In (getName op) indexOpNames.

(** The sums [getMemoryIndices] creates: one [arith.addi] of a base index
    and the address of a dimension. *)
Definition addressSums (bases simdIndices : list Value) : list Operation :=
  zip_with arith_AddIOp bases simdIndices.

(** ** The operations of one iteration of a transfer *)

(** The operations one iteration of the transfer read creates: index
    arithmetic, then a load of [unitType] from [source], then the insertion
    of the loaded unit into the accumulator. *)
Definition isReadUnit (unitType : Ty) (source : Value) (ops : list Operation) : Prop :=
  exists indexOps memoryIndices accumulator accIndices,
    Forall isIndexOp indexOps
    /\ ops = indexOps
             ++ [vector_LoadOp unitType source memoryIndices;
                 vector_InsertStridedSliceOp
                   (getResult (vector_LoadOp unitType source memoryIndices) 0)
                   accumulator accIndices [1]].


(** ** A transposing transfer *)

(** A register layout with two dimensions, a transfer read of a 16x8 vector
    through the transposing map (d0, d1) -> (d1, d0), the transfer write of
    such a vector, and an iterator that visits two states. *)
Definition transposeLayout : LayoutAttr :=
  mkLayout [mkPerDimLayout [LANEY; VECTORX] [4; 4];
            mkPerDimLayout [LANEX; OTHER 0] [2; 4]] (2, 4, 1).

Definition transposeMap : AffineMap :=
  mkAffineMap 2 0 [AffineDimExpr 1; AffineDimExpr 0].

Definition transposeRead : TransferReadOp :=
  mkTransferReadOp
    (Existing 1 (MemRefType [8; 16] (FloatType 16)))
    [Existing 2 (Scalar IndexType); Existing 3 (Scalar IndexType)]
    transposeMap
    (Existing 4 (Scalar (FloatType 16)))
    None
    [true; true]
    (VectorType [16; 8] (FloatType 16)).


Definition transposeSignature : DistributionSignature :=
  fun _ => Some (IsLayoutAttr transposeLayout).

Definition visitTwo (layout : LayoutAttr) (steps : list (LayoutDimension * Z))
  : list State :=
  [[(VECTORX, 0); (OTHER 0, 0)]; [(VECTORX, 0); (OTHER 0, 1)]].

Definition localIndex (state : State) : list Z :=
  [State_lookup state VECTORX; State_lookup state (OTHER 0)].

(** * Properties *)

(** ** The rewriter monad *)

Lemma addCreated_nil st : addCreated st [] = st.
Proof. destruct st; unfold addCreated; simpl. by rewrite app_nil_r. Qed.

Lemma addCreated_app st ops1 ops2 :
  addCreated (addCreated st ops1) ops2 = addCreated st (ops1 ++ ops2).
Proof. unfold addCreated; simpl. by rewrite app_assoc. Qed.

Lemma create_addCreated op st : create op st = Done op (addCreated st [op]).
Proof. reflexivity. Qed.

Lemma newOps_addCreated st ops : newOps st (addCreated st ops) = ops.
Proof. unfold newOps, addCreated; simpl. by rewrite drop_app_length. Qed.

(** ** [computeSIMDIndex]: what it creates and returns *)

Lemma computeSIMDIndexDim_run state layout laneId dimLayout st :
  computeSIMDIndexDim state layout laneId dimLayout st
  = Done (getResult (simdIndexOp state layout laneId dimLayout) 0)
         (addCreated st (simdIndexOps state layout laneId dimLayout)).
Proof.
  unfold computeSIMDIndexDim, simdIndexOps, simdIndexOp, laneGridVals,
    laneDelinearization, laneGridConstants.
  destruct (getLaneGrid layout) as [[X Y] Z].
  cbv [bind delinearizeIndex ret create assert succeeded addCreated
       created replaced erased].
  rewrite <- !app_assoc. reflexivity.
Qed.

Lemma computeSIMDIndex_run_on state layout laneId dims st :
  mapM (computeSIMDIndexDim state layout laneId) dims st
  = Done (List.map (fun d => getResult (simdIndexOp state layout laneId d) 0) dims)
         (addCreated st (flat_map (simdIndexOps state layout laneId) dims)).
Proof.
  revert st. induction dims as [|d dims IH]; intros st.
  - simpl. unfold ret. by rewrite addCreated_nil.
  - simpl. unfold bind at 1. rewrite computeSIMDIndexDim_run.
    unfold bind at 1. rewrite IH. unfold ret.
    by rewrite addCreated_app.
Qed.

Lemma computeSIMDIndex_run state layout laneId st :
  computeSIMDIndex state layout laneId st
  = Done (List.map (fun d => getResult (simdIndexOp state layout laneId d) 0)
                   (getLayouts layout))
         (addCreated st (flat_map (simdIndexOps state layout laneId) (getLayouts layout))).
Proof. apply computeSIMDIndex_run_on. Qed.

(** ** Run-time value of the created index arithmetic *)

Lemma evalValue_ConstantIndexOp env c k :
  evalValue env (getResult (arith_ConstantIndexOp c) k) = Some c.
Proof. reflexivity. Qed.

Lemma delinearize_three lane z y x :
  delinearize lane [z; y; x]
  = [lane / (y * (x * 1));
     (lane mod (y * (x * 1))) / (x * 1);
     (lane mod (y * (x * 1))) mod (x * 1)].
Proof. reflexivity. Qed.

Lemma evalValue_laneDelinearization env layout laneId lane k :
  evalValue env laneId = Some lane ->
  evalValue env (getResult (laneDelinearization layout laneId) k)
  = let '(X, Y, Z) := getLaneGrid layout in
    nth_error (delinearize lane [Z; Y; X]) k.
Proof.
  intros Hlane. unfold laneDelinearization, laneGridConstants.
  destruct (getLaneGrid layout) as [[X Y] Z].
  cbn [getResult affine_delinearizeIndexOp List.map evalValue].
  rewrite Hlane. reflexivity.
Qed.

Lemma evalValue_laneGridVals env layout laneId lane :
  evalValue env laneId = Some lane ->
  sequence (List.map (evalValue env) (laneGridVals layout laneId))
  = let '(x, y, z) := laneCoordinates layout lane in Some [x; y; z].
Proof.
  intros Hlane. unfold laneGridVals. cbn [List.map].
  rewrite !(evalValue_laneDelinearization _ _ _ _ _ Hlane).
  unfold laneCoordinates. destruct (getLaneGrid layout) as [[X Y] Z].
  rewrite delinearize_three. reflexivity.
Qed.

Lemma evalValue_simdIndexOp env state layout laneId lane dimLayout k :
  evalValue env laneId = Some lane ->
  evalValue env (getResult (simdIndexOp state layout laneId dimLayout) k)
  = let '(x, y, z) := laneCoordinates layout lane in
    Some (evalAffineExpr [] [x; y; z] (dimOffset state dimLayout)).
Proof.
  intros Hlane. unfold simdIndexOp, affine_AffineApplyOp.
  cbn [getResult evalValue].
  rewrite (evalValue_laneGridVals _ _ _ _ Hlane).
  destruct (laneCoordinates layout lane) as [[x y] z].
  reflexivity.
Qed.

(** The affine expression the inner loop builds evaluates to the spec's
    walk, from any starting offset and stride. *)
Lemma offsetStep_walk state x y z es offset stride :
  let result := fold_left (offsetStep state) es (offset, stride) in
  evalAffineExpr [] [x; y; z] (fst result)
  = walkMixedRadix state (x, y, z) es
      (evalAffineExpr [] [x; y; z] stride) (evalAffineExpr [] [x; y; z] offset).
Proof.
  revert offset stride. induction es as [|[label shape] es IH]; intros offset stride.
  - reflexivity.
  - cbn [fold_left walkMixedRadix]. cbv zeta in IH.
    unfold offsetStep at 2.
    destruct label; rewrite IH; reflexivity.
Qed.

Lemma dimOffset_mixedRadix state x y z dimLayout :
  evalAffineExpr [] [x; y; z] (dimOffset state dimLayout)
  = mixedRadixAddress state (x, y, z) dimLayout.
Proof.
  unfold dimOffset, mixedRadixAddress.
  apply (offsetStep_walk state x y z (rev (entries dimLayout))).
Qed.

(** C2: for every dimension of the layout, the run-time value of the
    address [computeSIMDIndex] returns for it is the mixed-radix sum of the
    spec: the walk over the dimension's (label, extent) list from the
    fastest- to the slowest-changing entry, stride starting at 1 and offset
    at 0, a lane label adding stride times the lane coordinate, any other
    label stride times the state's position, the stride then multiplied by
    the extent. *)
Theorem computeSIMDIndex_is_mixed_radix
  (state : State) (layout : LayoutAttr) (laneId : Value) (st : RewriterState)
  (env : nat -> Z) (lane : Z) :
  evalValue env laneId = Some lane ->
  exists simdIndex st',
    computeSIMDIndex state layout laneId st = Done simdIndex st'
    /\ List.map (evalValue env) simdIndex
       = List.map (fun dimLayout =>
                     Some (mixedRadixAddress state (laneCoordinates layout lane) dimLayout))
                  (getLayouts layout).
Proof.
  intros Hlane. eexists _, _. split; [apply computeSIMDIndex_run|].
  rewrite List.map_map. apply List.map_ext. intros d.
  rewrite (evalValue_simdIndexOp _ _ _ _ _ _ _ Hlane).
  destruct (laneCoordinates layout lane) as [[x y] z].
  by rewrite dimOffset_mixedRadix.
Qed.

Lemma computeSIMDIndex_is_mixed_radix_witness :
  let state : State := [(VECTORX, 0)] in
  let layout := mkLayout [mkPerDimLayout [LANEX; VECTORX] [2; 4]] (2, 1, 1) in
  let laneId := Existing 7 (Scalar IndexType) in
  exists simdIndex st',
    computeSIMDIndex state layout laneId emptyRewriterState = Done simdIndex st'
    /\ List.map (evalValue (fun _ => 1)) simdIndex = [Some 4].
Proof.
  exact (computeSIMDIndex_is_mixed_radix
           [(VECTORX, 0)]
           (mkLayout [mkPerDimLayout [LANEX; VECTORX] [2; 4]] (2, 1, 1))
           (Existing 7 (Scalar IndexType)) emptyRewriterState (fun _ => 1) 1 eq_refl).
Defined.

(** The example of the spec: with lane grid (X=2, Y=1, Z=1) and the list
    [(LANEX, 2), (VECTORX, 4)], lane 0 gets address 0 and lane 1 address 4. *)
Example computeSIMDIndex_lanes_0_and_1 :
  let layout := mkLayout [mkPerDimLayout [LANEX; VECTORX] [2; 4]] (2, 1, 1) in
  let laneId := Existing 7 (Scalar IndexType) in
  exists simdIndex st',
    computeSIMDIndex [(VECTORX, 0)] layout laneId emptyRewriterState
    = Done simdIndex st'
    /\ List.map (evalValue (fun _ => 0)) simdIndex = [Some 0]
    /\ List.map (evalValue (fun _ => 1)) simdIndex = [Some 4].
Proof. eexists _, _. split; [reflexivity|]. split; reflexivity. Qed.

(** ** Lane coordinates: one decomposition per dimension *)

Lemma filter_isDelinearize_simdIndexOps state layout laneId dimLayout :
  List.filter isDelinearize (simdIndexOps state layout laneId dimLayout)
  = [laneDelinearization layout laneId].
Proof.
  unfold simdIndexOps, laneGridConstants.
  destruct (getLaneGrid layout) as [[X Y] Z] eqn:Hgrid. reflexivity.
Qed.

Lemma filter_isDelinearize_dims state layout laneId dims :
  List.filter isDelinearize (flat_map (simdIndexOps state layout laneId) dims)
  = repeat (laneDelinearization layout laneId) (length dims).
Proof.
  induction dims as [|d dims IH]; [reflexivity|].
  cbn [flat_map length repeat].
  by rewrite List.filter_app, filter_isDelinearize_simdIndexOps, IH.
Qed.

Lemma laneCoordinates_formula layout lane :
  laneCoordinates layout lane
  = let '(X, Y, Z) := getLaneGrid layout in
    ((lane mod (Y * X)) mod X, (lane mod (Y * X)) / X, lane / (Y * X)).
Proof.
  unfold laneCoordinates. destruct (getLaneGrid layout) as [[X Y] Z].
  rewrite delinearize_three. cbn [nth]. by rewrite !Z.mul_1_r.
Qed.

(** C8 (as amended): [computeSIMDIndex] obtains the three lane coordinates
    once per vector dimension of the layout, not once per call: for each
    dimension it creates one decomposition of the lane identity against the
    lane-grid extents ordered (Z, Y, X), and the dimension's address is
    computed from the three results read back as (X, Y, Z), whose run-time
    values are the row-major coordinates of the lane. *)
Theorem computeSIMDIndex_decomposes_lane_per_dimension
  (state : State) (layout : LayoutAttr) (laneId : Value) (st : RewriterState) :
  exists simdIndex st',
    computeSIMDIndex state layout laneId st = Done simdIndex st'
    /\ decompositionsCreated st st' = length (getLayouts layout)
    /\ (forall op, In op (List.filter isDelinearize (newOps st st')) ->
        let '(X, Y, Z) := getLaneGrid layout in
        op = affine_delinearizeIndexOp laneId
               [getResult (arith_ConstantIndexOp Z) 0;
                getResult (arith_ConstantIndexOp Y) 0;
                getResult (arith_ConstantIndexOp X) 0])
    /\ simdIndex
       = List.map (fun dimLayout =>
                     let d := laneDelinearization layout laneId in
                     getResult (affine_AffineApplyOp
                                  (mkAffineMap 0 3 [dimOffset state dimLayout])
                                  [getResult d 2; getResult d 1; getResult d 0]) 0)
                  (getLayouts layout)
    /\ (forall env lane, evalValue env laneId = Some lane ->
        let d := laneDelinearization layout laneId in
        let '(X, Y, Z) := getLaneGrid layout in
        List.map (evalValue env) [getResult d 2; getResult d 1; getResult d 0]
        = [Some ((lane mod (Y * X)) mod X);
           Some ((lane mod (Y * X)) / X);
           Some (lane / (Y * X))]).
Proof.
  eexists _, _. split; [apply computeSIMDIndex_run|].
  unfold decompositionsCreated. rewrite newOps_addCreated, filter_isDelinearize_dims.
  split; [apply repeat_length|]. split; [|split; [reflexivity|]].
  - intros op Hop. apply repeat_spec in Hop. subst op.
    unfold laneDelinearization, laneGridConstants.
    by destruct (getLaneGrid layout) as [[X Y] Z].
  - intros env lane Hlane. cbv zeta. cbn [List.map].
    rewrite !(evalValue_laneDelinearization _ _ _ _ _ Hlane).
    destruct (getLaneGrid layout) as [[X Y] Z].
    rewrite delinearize_three. cbn [nth_error]. by rewrite !Z.mul_1_r.
Qed.

Lemma computeSIMDIndex_decomposes_lane_per_dimension_witness :
  let layout := mkLayout [mkPerDimLayout [LANEX; VECTORX] [2; 4];
                          mkPerDimLayout [LANEY; OTHER 0] [3; 2]] (2, 3, 1) in
  let laneId := Existing 7 (Scalar IndexType) in
  exists simdIndex st',
    computeSIMDIndex [] layout laneId emptyRewriterState = Done simdIndex st'
    /\ decompositionsCreated emptyRewriterState st' = 2%nat
    /\ List.map (evalValue (fun _ => 5))
         (let d := laneDelinearization layout laneId in
          [getResult d 2; getResult d 1; getResult d 0])
       = [Some 1; Some 2; Some 0].
Proof.
  destruct (computeSIMDIndex_decomposes_lane_per_dimension
              [] (mkLayout [mkPerDimLayout [LANEX; VECTORX] [2; 4];
                            mkPerDimLayout [LANEY; OTHER 0] [3; 2]] (2, 3, 1))
              (Existing 7 (Scalar IndexType)) emptyRewriterState)
    as (simdIndex & st' & Hrun & Hcount & _ & _ & Hvals).
  exists simdIndex, st'. split; [exact Hrun|]. split; [exact Hcount|].
  exact (Hvals (fun _ => 5) 5 eq_refl).
Defined.

(** C8 as stated fails: on a layout with two dimensions one call creates
    two decompositions of the lane identity. *)
Lemma computeSIMDIndex_two_dimensions_decompose_twice :
  let layout := mkLayout [mkPerDimLayout [LANEX; VECTORX] [2; 4];
                          mkPerDimLayout [LANEY; OTHER 0] [3; 2]] (2, 3, 1) in
  let laneId := Existing 7 (Scalar IndexType) in
  exists simdIndex st',
    computeSIMDIndex [] layout laneId emptyRewriterState = Done simdIndex st'
    /\ decompositionsCreated emptyRewriterState st' = 2%nat
    /\ decompositionsCreated emptyRewriterState st' <> 1%nat.
Proof.
  eexists _, _. split; [reflexivity|]. split; [reflexivity|]. vm_compute. discriminate.
Qed.

(** ** Injectivity of addressing per lane *)

Lemma walkMixedRadix_horner state coords es stride offset :
  walkMixedRadix state coords es stride offset
  = offset + stride * hornerValue state coords es.
Proof.
  revert stride offset. induction es as [|[label extent] es IH]; intros stride offset.
  - cbn. lia.
  - cbn [walkMixedRadix hornerValue]. rewrite IH. lia.
Qed.

Lemma contribution_lane state1 state2 coords label :
  isLane label = true ->
  contribution state1 coords label = contribution state2 coords label.
Proof. destruct coords as [[x y] z]. by destruct label. Qed.

Lemma contribution_position state coords label :
  isLane label = false ->
  contribution state coords label = State_lookup state label.
Proof. destruct coords as [[x y] z]. by destruct label. Qed.

(** Two states with positions in range that give one address to a dimension
    agree on every non-lane label of the dimension. *)
Lemma hornerValue_injective state1 state2 coords es :
  forallb (fun e => 0 <? snd e) es = true ->
  forallb (inRange state1) es = true ->
  forallb (inRange state2) es = true ->
  hornerValue state1 coords es = hornerValue state2 coords es ->
  forall label extent, In (label, extent) es -> isLane label = false ->
    State_lookup state1 label = State_lookup state2 label.
Proof.
  induction es as [|[l e] es IH]; intros Hpos Hr1 Hr2 Heq label extent Hin Hnl.
  - destruct Hin.
  - cbn [forallb] in Hpos, Hr1, Hr2.
    apply andb_prop in Hpos as [He Hpos], Hr1 as [H1 Hr1], Hr2 as [H2 Hr2].
    cbn [snd] in He. apply Z.ltb_lt in He.
    cbn [hornerValue] in Heq.
    unfold inRange in H1, H2. cbn [fst snd] in H1, H2.
    assert (Hboth :
      hornerValue state1 coords es = hornerValue state2 coords es
      /\ (isLane l = false -> State_lookup state1 l = State_lookup state2 l)).
    { destruct (isLane l) eqn:Hl.
      - rewrite (contribution_lane state1 state2 coords l Hl) in Heq.
        split; [nia | discriminate].
      - rewrite !(contribution_position _ coords l Hl) in Heq.
        cbn [orb] in H1, H2.
        apply andb_prop in H1 as [H1a H1b], H2 as [H2a H2b].
        apply Z.leb_le in H1a, H2a. apply Z.ltb_lt in H1b, H2b.
        assert (hornerValue state1 coords es = hornerValue state2 coords es) by nia.
        split; [assumption | intros _; nia]. }
    destruct Hboth as [Hrest Hhere].
    destruct Hin as [Hin|Hin].
    + inversion Hin; subst. by apply Hhere.
    + by apply (IH Hpos Hr1 Hr2 Hrest label extent).
Qed.

Lemma State_lookup_absent (state : State) label :
  ~ In label (List.map fst state) -> State_lookup state label = 0.
Proof.
  induction state as [|[l p] state IH]; intros Hnot; [reflexivity|].
  cbn [State_lookup]. destruct (decide (l = label)) as [->|Hne].
  - exfalso. apply Hnot. by left.
  - apply IH. intros Hin. apply Hnot. by right.
Qed.

Lemma stateOver_labels layout state label :
  stateOver layout state = true ->
  State_lookup state label <> 0 ->
  In label (layoutLabels layout).
Proof.
  intros Hover Hne. unfold stateOver in Hover.
  apply andb_prop in Hover as [Hkeys _].
  destruct (in_dec LayoutDimension_eq_dec label (List.map fst state)) as [Hin|Hnot].
  - apply in_map_iff in Hin as ([l p] & <- & Hin).
    rewrite forallb_forall in Hkeys. specialize (Hkeys _ Hin).
    apply andb_prop in Hkeys as [_ Hmem].
    apply bool_decide_eq_true in Hmem. by apply list_elem_of_In.
  - exfalso. apply Hne. by apply State_lookup_absent.
Qed.

Lemma stateOver_inRange layout state d :
  stateOver layout state = true -> In d (getLayouts layout) ->
  forallb (inRange state) (rev (entries d)) = true.
Proof.
  intros Hover Hd. unfold stateOver in Hover.
  apply andb_prop in Hover as [_ Hrange].
  rewrite forallb_forall in Hrange. specialize (Hrange _ Hd).
  rewrite forallb_forall in *. intros e He. apply Hrange. by apply in_rev.
Qed.

(** C9: for a layout (with positive extents), a fixed lane and two
    iteration states over the layout whose positions differ at some
    non-lane label, the addresses [computeSIMDIndex] computes differ in at
    least one dimension. *)
Theorem computeSIMDIndex_injective_per_lane
  (layout : LayoutAttr) (laneId : Value) (env : nat -> Z) (lane : Z)
  (state1 state2 : State) (st1 st2 : RewriterState) (label : LayoutDimension) :
  positiveExtents layout = true ->
  evalValue env laneId = Some lane ->
  stateOver layout state1 = true ->
  stateOver layout state2 = true ->
  isLane label = false ->
  State_lookup state1 label <> State_lookup state2 label ->
  exists simdIndex1 st1' simdIndex2 st2',
    computeSIMDIndex state1 layout laneId st1 = Done simdIndex1 st1'
    /\ computeSIMDIndex state2 layout laneId st2 = Done simdIndex2 st2'
    /\ exists (i : nat) (address1 address2 : Z),
         (evalValue env <$> simdIndex1 !! i) = Some (Some address1)
         /\ (evalValue env <$> simdIndex2 !! i) = Some (Some address2)
         /\ address1 <> address2.
Proof.
  intros Hpos Hlane Hover1 Hover2 Hnl Hdiff.
  eexists _, _, _, _. split; [apply computeSIMDIndex_run|].
  split; [apply computeSIMDIndex_run|].
  (* the label occurs in some dimension of the layout *)
  assert (Hin : In label (layoutLabels layout)).
  { destruct (Z.eq_dec (State_lookup state1 label) 0) as [Hz|Hnz].
    - apply (stateOver_labels layout state2); [assumption|]. congruence.
    - by apply (stateOver_labels layout state1). }
  unfold layoutLabels in Hin. apply in_flat_map in Hin as (d & Hd & Hin).
  apply in_map_iff in Hin as ([l extent] & Hl & Hin). cbn in Hl. subst l.
  apply list_elem_of_In, list_elem_of_lookup in Hd as [i Hi].
  exists i, (mixedRadixAddress state1 (laneCoordinates layout lane) d),
         (mixedRadixAddress state2 (laneCoordinates layout lane) d).
  assert (Hval : forall state,
    (evalValue env <$>
       List.map (fun d => getResult (simdIndexOp state layout laneId d) 0)
                (getLayouts layout) !! i)
    = Some (Some (mixedRadixAddress state (laneCoordinates layout lane) d))).
  { intros state. change (@List.map) with (@fmap list _).
    rewrite list_lookup_fmap, Hi. cbn [fmap option_fmap option_map].
    rewrite (evalValue_simdIndexOp _ _ _ _ _ _ _ Hlane).
    destruct (laneCoordinates layout lane) as [[x y] z].
    by rewrite dimOffset_mixedRadix. }
  split; [apply Hval|]. split; [apply Hval|].
  intros Heq. apply Hdiff.
  unfold mixedRadixAddress in Heq. rewrite !walkMixedRadix_horner in Heq.
  assert (Hd : In d (getLayouts layout)).
  { apply list_elem_of_In, list_elem_of_lookup. eauto. }
  apply (hornerValue_injective state1 state2 (laneCoordinates layout lane)
           (rev (entries d))) with (extent := extent).
  - unfold positiveExtents in Hpos. rewrite forallb_forall in Hpos.
    specialize (Hpos _ Hd). rewrite forallb_forall in *.
    intros e He. apply Hpos. by apply in_rev.
  - by apply (stateOver_inRange layout).
  - by apply (stateOver_inRange layout).
  - lia.
  - by apply in_rev in Hin.
  - assumption.
Qed.

Lemma computeSIMDIndex_injective_per_lane_witness :
  let layout := mkLayout [mkPerDimLayout [LANEX; VECTORX] [2; 4]] (2, 1, 1) in
  let laneId := Existing 7 (Scalar IndexType) in
  exists simdIndex1 st1' simdIndex2 st2',
    computeSIMDIndex [(VECTORX, 0)] layout laneId emptyRewriterState
    = Done simdIndex1 st1'
    /\ computeSIMDIndex [(VECTORX, 1)] layout laneId emptyRewriterState
       = Done simdIndex2 st2'
    /\ exists (i : nat) (address1 address2 : Z),
         (evalValue (fun _ => 1) <$> simdIndex1 !! i) = Some (Some address1)
         /\ (evalValue (fun _ => 1) <$> simdIndex2 !! i) = Some (Some address2)
         /\ address1 <> address2.
Proof.
  apply (computeSIMDIndex_injective_per_lane
           (mkLayout [mkPerDimLayout [LANEX; VECTORX] [2; 4]] (2, 1, 1))
           (Existing 7 (Scalar IndexType)) (fun _ => 1) 1
           [(VECTORX, 0)] [(VECTORX, 1)] emptyRewriterState emptyRewriterState
           VECTORX);
    [reflexivity | reflexivity | reflexivity | reflexivity | reflexivity | discriminate].
Defined.

(** ** Splat constants *)

Lemma bind_Done {A B} (m : Rewrite A) (k : A -> Rewrite B) st b st' :
  bind m k st = Done b st' ->
  exists a st1, m st = Done a st1 /\ k a st1 = Done b st'.
Proof.
  unfold bind. destruct (m st) as [a st1|f]; [|discriminate]. eauto.
Qed.

Lemma bind_ret_l {A B} (a : A) (k : A -> Rewrite B) : bind (ret a) k = k a.
Proof. reflexivity. Qed.

Lemma bind_run {A B} (m : Rewrite A) (k : A -> Rewrite B) st a st1 :
  m st = Done a st1 -> bind m k st = k a st1.
Proof. unfold bind. by intros ->. Qed.

(** C1: a constant whose result is vector-typed, whose value is a splat and
    which has the layout [L] assigned is rewritten: the pattern succeeds,
    creates one splat constant of shape [getDistributedShape L], of the
    original element type and carrying the original scalar, and replaces
    the original constant by it. *)
Theorem DistributeConstants_rewrites_splat
  (constantOp : ConstantOp) (signature : DistributionSignature)
  (L : VectorLayoutInterface) (shape : list Z) (elementType : ScalarType)
  (attrType : Ty) (scalar : ScalarAttr) (st : RewriterState) :
  getType (ConstantOp_getResult constantOp) = VectorType shape elementType ->
  getValue constantOp = SplatElementsAttr attrType scalar ->
  signature (ConstantOp_getResult constantOp) = Some L ->
  let vectorType := VectorType (getDistributedShape L) elementType in
  let distributedOp := arith_ConstantOp vectorType (SplatElementsAttr vectorType scalar) in
  DistributeConstants_matchAndRewrite constantOp signature st
  = Done success
         (mkRewriterState
            (created st ++ [distributedOp])
            (replaced st ++ [(ConstantOp_operation constantOp,
                              [getResult distributedOp 0])])
            (erased st)).
Proof.
  intros Hty Hval Hsig. unfold DistributeConstants_matchAndRewrite.
  unfold dyn_cast_VectorValue. rewrite Hty, Hval, Hsig. reflexivity.
Qed.

Lemma DistributeConstants_rewrites_splat_witness :
  let f32 := FloatType 32 in
  let constantOp :=
    mkConstantOp (VectorType [8] f32)
                 (SplatElementsAttr (VectorType [8] f32) (FloatAttr 1065353216)) in
  let L := IsLayoutAttr (mkLayout [mkPerDimLayout [LANEX; VECTORX] [2; 4]] (2, 1, 1)) in
  DistributeConstants_matchAndRewrite constantOp (fun _ => Some L) emptyRewriterState
  = Done success
      (mkRewriterState
         [arith_ConstantOp (VectorType [4] f32)
            (SplatElementsAttr (VectorType [4] f32) (FloatAttr 1065353216))]
         [(ConstantOp_operation constantOp,
           [getResult (arith_ConstantOp (VectorType [4] f32)
                         (SplatElementsAttr (VectorType [4] f32) (FloatAttr 1065353216)))
                      0])]
         []).
Proof.
  exact (DistributeConstants_rewrites_splat
           (mkConstantOp (VectorType [8] (FloatType 32))
              (SplatElementsAttr (VectorType [8] (FloatType 32)) (FloatAttr 1065353216)))
           (fun _ => Some (IsLayoutAttr
                             (mkLayout [mkPerDimLayout [LANEX; VECTORX] [2; 4]] (2, 1, 1))))
           (IsLayoutAttr (mkLayout [mkPerDimLayout [LANEX; VECTORX] [2; 4]] (2, 1, 1)))
           [8] (FloatType 32) (VectorType [8] (FloatType 32)) (FloatAttr 1065353216)
           emptyRewriterState eq_refl eq_refl eq_refl).
Defined.

(** C5 as stated fails: a vector-typed splat constant with no layout
    assigned does not give a no-match; the pattern calls through the null
    layout. *)
Lemma DistributeConstants_without_layout_is_not_no_match :
  let f32 := FloatType 32 in
  let constantOp :=
    mkConstantOp (VectorType [8] f32)
                 (SplatElementsAttr (VectorType [8] f32) (FloatAttr 0)) in
  let signature : DistributionSignature := fun _ => None in
  signature (ConstantOp_getResult constantOp) = None
  /\ DistributeConstants_matchAndRewrite constantOp signature emptyRewriterState
     = Abort NullDereference
  /\ forall st', DistributeConstants_matchAndRewrite constantOp signature
                   emptyRewriterState <> Done failure st'.
Proof. split; [reflexivity|]. split; [reflexivity|]. intros st'. discriminate. Qed.

(** C5 (as amended): the splat-constant pattern returns a recoverable
    no-match exactly when the constant's result is not vector-typed or its
    value is not a splat, and then it has changed nothing; whether a layout
    is assigned plays no part in it. *)
Theorem DistributeConstants_no_match_iff
  (constantOp : ConstantOp) (signature : DistributionSignature) (st : RewriterState) :
  ((exists st', DistributeConstants_matchAndRewrite constantOp signature st
                = Done failure st')
   <-> (dyn_cast_VectorValue (ConstantOp_getResult constantOp) = None
        \/ dyn_cast_SplatElementsAttr (getValue constantOp) = None))
  /\ (forall st', DistributeConstants_matchAndRewrite constantOp signature st
                  = Done failure st' -> st' = st).
Proof.
  unfold DistributeConstants_matchAndRewrite.
  destruct (dyn_cast_VectorValue (ConstantOp_getResult constantOp)) as [[shape e]|];
    [destruct (dyn_cast_SplatElementsAttr (getValue constantOp)) as [splat|]|].
  - assert (Hnever : forall st',
      (shape0 <- callGetDistributedShape (signature (ConstantOp_getResult constantOp)) ;;
       distributedOp <- create (arith_ConstantOp (VectorType shape0 e)
                                  (SplatElementsAttr (VectorType shape0 e) splat)) ;;
       replaceOpWithDistributedValues (ConstantOp_operation constantOp)
                                      [getResult distributedOp 0] ;;;
       ret success) st <> Done failure st').
    { intros st'. destruct (signature (ConstantOp_getResult constantOp)); discriminate. }
    split.
    + split.
      * intros [st' Hrun]. by apply Hnever in Hrun.
      * intros [Hv|Hs]; discriminate.
    + intros st' Hrun. by apply Hnever in Hrun.
  - split.
    + split; [by right | intros _; by exists st].
    + intros st' Hrun. by inversion Hrun.
  - split.
    + split; [by left | intros _; by exists st].
    + intros st' Hrun. by inversion Hrun.
Qed.

Lemma DistributeConstants_no_match_iff_witness :
  let constantOp :=
    mkConstantOp (VectorType [2] (IntegerType 32))
                 (DenseElementsAttr (VectorType [2] (IntegerType 32))
                                    [IntegerAttr 1; IntegerAttr 2]) in
  exists st', DistributeConstants_matchAndRewrite constantOp (fun _ => None)
                emptyRewriterState = Done failure st'.
Proof.
  apply (proj2 (proj1 (DistributeConstants_no_match_iff
                         (mkConstantOp (VectorType [2] (IntegerType 32))
                            (DenseElementsAttr (VectorType [2] (IntegerType 32))
                                               [IntegerAttr 1; IntegerAttr 2]))
                         (fun _ => None) emptyRewriterState))).
  right. reflexivity.
Defined.

(** ** Elementwise operations *)

Lemma mapM_Done {A B} (f : A -> Rewrite B) (l : list A) :
  (forall x, In x l -> forall st, exists y st', f x st = Done y st') ->
  forall st, exists ys st', mapM f l st = Done ys st'.
Proof.
  induction l as [|x l IH]; intros Hf st.
  - by exists [], st.
  - destruct (Hf x (or_introl eq_refl) st) as (y & st1 & Hx).
    destruct (IH (fun z Hz => Hf z (or_intror Hz)) st1) as (ys & st2 & Hl).
    exists (y :: ys), st2. cbn [mapM].
    rewrite (bind_run _ _ _ _ _ Hx), (bind_run _ _ _ _ _ Hl). reflexivity.
Qed.

(** The last steps of the elementwise pattern, from the creation of the
    distributed operation on. *)
Lemma DistributeElementwise_run op signature st operands st1 resultTypes st2 :
  mapM (distributeOperand signature) (getOperands op) st = Done operands st1 ->
  mapM (distributeResultType signature) (getResults_of op) st1 = Done resultTypes st2 ->
  let distributedOp :=
    match getAttr op fastmathAttrName with
    | Some attr => mkOperation (getName op) operands resultTypes
                               (<[fastmathAttrName := attr]> ∅)
    | None => mkOperation (getName op) operands resultTypes ∅
    end in
  DistributeElementwise_matchAndRewrite op signature st
  = Done success
      (mkRewriterState (created st2 ++ [distributedOp])
                       (replaced st2 ++ [(op, getResults_of distributedOp)])
                       (erased st2)).
Proof.
  intros Hops Htys. unfold DistributeElementwise_matchAndRewrite.
  rewrite (bind_run _ _ _ _ _ Hops), (bind_run _ _ _ _ _ Htys).
  destruct (getAttr op fastmathAttrName) as [attr|].
  - unfold bind, create, setAttrOfLastCreated, replaceOpWithDistributedValues, ret.
    cbn [created replaced erased setAttr]. by rewrite removelast_last.
  - reflexivity.
Qed.

Lemma DistributeElementwise_Done op signature st r st' :
  DistributeElementwise_matchAndRewrite op signature st = Done r st' ->
  exists operands st1 resultTypes st2,
    mapM (distributeOperand signature) (getOperands op) st = Done operands st1
    /\ mapM (distributeResultType signature) (getResults_of op) st1
       = Done resultTypes st2.
Proof.
  intros Hrun. unfold DistributeElementwise_matchAndRewrite in Hrun.
  apply bind_Done in Hrun as (operands & st1 & Hops & Hrun).
  apply bind_Done in Hrun as (resultTypes & st2 & Htys & _).
  by exists operands, st1, resultTypes, st2.
Qed.

(** C4 as stated fails: an [arith.addf] whose vector operands have layouts
    and whose vector result has none is not answered with a no-match; the
    pattern calls through the null layout of the result. *)
Lemma DistributeElementwise_without_layout_is_not_no_match :
  let v4f32 := VectorType [8] (FloatType 32) in
  let lhs := Existing 1 v4f32 in
  let rhs := Existing 2 v4f32 in
  let op := mkOperation "arith.addf" [lhs; rhs] [v4f32] ∅ in
  let L := IsLayoutAttr (mkLayout [mkPerDimLayout [LANEX; VECTORX] [2; 4]] (2, 1, 1)) in
  let signature : DistributionSignature :=
    fun v => match v with Existing _ _ => Some L | OpResult _ _ => None end in
  signature (getResult op 0) = None
  /\ DistributeElementwise_matchAndRewrite op signature emptyRewriterState
     = Abort NullDereference
  /\ forall st', DistributeElementwise_matchAndRewrite op signature emptyRewriterState
                 <> Done failure st'.
Proof. split; [reflexivity|]. split; [reflexivity|]. intros st'. discriminate. Qed.

(** C4 (as amended): the elementwise pattern has no no-match outcome.  It
    never returns a recoverable no-match, whatever the signature holds, and
    it succeeds whenever every vector operand and every vector result has a
    layout: that the layouts are available is a precondition of the
    pattern, which does not check it. *)
Theorem DistributeElementwise_never_no_match
  (op : Operation) (signature : DistributionSignature) (st : RewriterState) :
  (forall st', DistributeElementwise_matchAndRewrite op signature st <> Done failure st')
  /\ ((forall v, In v (getOperands op ++ getResults_of op) ->
                 dyn_cast_VectorValue v <> None -> signature v <> None) ->
      exists st', DistributeElementwise_matchAndRewrite op signature st
                  = Done success st').
Proof.
  split.
  - intros st' Hrun.
    destruct (DistributeElementwise_Done _ _ _ _ _ Hrun)
      as (operands & st1 & resultTypes & st2 & Hops & Htys).
    rewrite (DistributeElementwise_run _ _ _ _ _ _ _ Hops Htys) in Hrun.
    discriminate.
  - intros Hlayouts.
    destruct (mapM_Done (distributeOperand signature) (getOperands op)) with (st := st)
      as (operands & st1 & Hops).
    { intros v Hv st0. unfold distributeOperand.
      destruct (dyn_cast_VectorValue v) as [ve|] eqn:Hvec; [|by eexists _, _].
      destruct (signature v) as [l|] eqn:Hsig.
      - by eexists _, _.
      - exfalso. apply (Hlayouts v); [apply in_or_app; by left | by rewrite Hvec | done]. }
    destruct (mapM_Done (distributeResultType signature) (getResults_of op)) with (st := st1)
      as (resultTypes & st2 & Htys).
    { intros v Hv st0. unfold distributeResultType.
      destruct (dyn_cast_VectorValue v) as [[shape e]|] eqn:Hvec; [|by eexists _, _].
      destruct (signature v) as [l|] eqn:Hsig.
      - by eexists _, _.
      - exfalso. apply (Hlayouts v); [apply in_or_app; by right | by rewrite Hvec | done]. }
    eexists. apply (DistributeElementwise_run _ _ _ _ _ _ _ Hops Htys).
Qed.

Lemma DistributeElementwise_never_no_match_witness :
  let v4f32 := VectorType [8] (FloatType 32) in
  let op := mkOperation "arith.addf" [Existing 1 v4f32; Existing 2 v4f32] [v4f32] ∅ in
  let L := IsLayoutAttr (mkLayout [mkPerDimLayout [LANEX; VECTORX] [2; 4]] (2, 1, 1)) in
  exists st', DistributeElementwise_matchAndRewrite op (fun _ => Some L) emptyRewriterState
              = Done success st'.
Proof.
  apply (DistributeElementwise_never_no_match
           (mkOperation "arith.addf"
              [Existing 1 (VectorType [8] (FloatType 32));
               Existing 2 (VectorType [8] (FloatType 32))]
              [VectorType [8] (FloatType 32)] ∅)
           (fun _ => Some (IsLayoutAttr
                             (mkLayout [mkPerDimLayout [LANEX; VECTORX] [2; 4]] (2, 1, 1))))
           emptyRewriterState).
  intros v _ _. discriminate.
Defined.

(** C10: when the elementwise pattern rewrites an operation, the operation
    it creates in its place carries the original's fastmath attribute
    whenever the original has one, and no attribute under any other name. *)
Theorem DistributeElementwise_propagates_fastmath_only
  (op : Operation) (signature : DistributionSignature) (st st' : RewriterState) :
  DistributeElementwise_matchAndRewrite op signature st = Done success st' ->
  exists distributedOp,
    last (created st') = Some distributedOp
    /\ last (replaced st') = Some (op, getResults_of distributedOp)
    /\ getName distributedOp = getName op
    /\ (forall attr, getAttr op fastmathAttrName = Some attr ->
                     getAttr distributedOp fastmathAttrName = Some attr)
    /\ (forall name, name <> fastmathAttrName -> getAttr distributedOp name = None).
Proof.
  intros Hrun.
  destruct (DistributeElementwise_Done _ _ _ _ _ Hrun)
    as (operands & st1 & resultTypes & st2 & Hops & Htys).
  rewrite (DistributeElementwise_run _ _ _ _ _ _ _ Hops Htys) in Hrun.
  inversion Hrun as [Hst']. clear Hrun Hst'.
  eexists. cbn [created replaced].
  split; [apply last_snoc|]. split; [apply last_snoc|].
  destruct (getAttr op fastmathAttrName) as [attr|]; cbn [getName getAttr getAttrs].
  - split; [reflexivity|]. split.
    + intros attr' Heq. inversion Heq. subst attr'. unfold getAttr. cbn [getAttrs].
      apply lookup_insert_eq.
    + intros name Hne. unfold getAttr. cbn [getAttrs].
      rewrite lookup_insert_ne by done. apply lookup_empty.
  - split; [reflexivity|]. split.
    + intros attr' Heq. discriminate.
    + intros name Hne. unfold getAttr. cbn [getAttrs]. apply lookup_empty.
Qed.

Lemma DistributeElementwise_propagates_fastmath_only_witness :
  let v8f32 := VectorType [8] (FloatType 32) in
  let op := mkOperation "arith.addf" [Existing 1 v8f32; Existing 2 v8f32] [v8f32]
              {[fastmathAttrName := FastMathFlagsAttr 127; "denormal" := UnitAttr]} in
  let L := IsLayoutAttr (mkLayout [mkPerDimLayout [LANEX; VECTORX] [2; 4]] (2, 1, 1)) in
  exists st' distributedOp,
    DistributeElementwise_matchAndRewrite op (fun _ => Some L) emptyRewriterState
    = Done success st'
    /\ last (created st') = Some distributedOp
    /\ getResultTypes distributedOp = [VectorType [4] (FloatType 32)]
    /\ getAttr distributedOp fastmathAttrName = Some (FastMathFlagsAttr 127)
    /\ getAttr distributedOp "denormal" = None.
Proof.
  intros v8f32 op L. eexists.
  destruct (DistributeElementwise_propagates_fastmath_only
              op (fun _ => Some L) emptyRewriterState _ eq_refl)
    as (distributedOp & Hlast & _ & _ & Hfastmath & Hothers).
  exists distributedOp. split; [reflexivity|]. split; [exact Hlast|].
  split; [by inversion Hlast|].
  split; [apply Hfastmath; reflexivity | apply Hothers; discriminate].
Defined.

(** ** Permutation reduction *)

Lemma distinctDims_positions results seen :
  distinctDims results seen = true ->
  results = List.map AffineDimExpr
              (flat_map (fun e => match e with AffineDimExpr p => [p] | _ => [] end)
                        results).
Proof.
  revert seen. induction results as [|e results IH]; intros seen Hd; [reflexivity|].
  destruct e as [p| | |]; cbn [distinctDims] in Hd; try discriminate.
  destruct (bool_decide (p ∈ seen)); [discriminate|].
  cbn [flat_map app List.map]. f_equal. by apply (IH (p :: seen)).
Qed.

(** No result refers to one of the leading unused positions. *)
Lemma countLeadingUnused_unused used from count p :
  In p used -> (from <= p)%nat -> (countLeadingUnused used from count <= p - from)%nat.
Proof.
  revert from. induction count as [|count IH]; intros from Hin Hle; cbn; [lia|].
  destruct (bool_decide (from ∈ used)) eqn:Hmem; [lia|].
  apply bool_decide_eq_false in Hmem.
  assert (from <> p) by (intros ->; apply Hmem; by apply list_elem_of_In).
  specialize (IH (S from) Hin). lia.
Qed.

Lemma reduceResults_positions NDEBUG leading positions :
  Forall (fun p => leading <= Z.of_nat p < 2 ^ 32) positions -> 0 <= leading ->
  reduceResults NDEBUG leading (List.map AffineDimExpr positions)
  = Returned (List.map (fun p => Z.of_nat p - leading) positions).
Proof.
  intros Hall Hlead. induction Hall as [|p positions Hp Hall IH]; [reflexivity|].
  cbn [List.map reduceResults]. unfold assertUnless.
  replace (leading <=? Z.of_nat p) with true by (symmetry; apply Z.leb_le; lia).
  rewrite orb_true_r, IH. unfold wrapUnsigned.
  rewrite Z.mod_small by lia. reflexivity.
Qed.

(** C6 as stated fails: the map (d0, d1, d2) -> (d0, d2) is a projected
    permutation whose results are all dimensions and which has no leading
    projected-out dimension, yet the reduction does not return [0; 2]: with
    assertions enabled it stops at "invalid permutation map", and without
    them it returns a wrapped-around position. *)
Lemma getReducedPermutation_inner_projection :
  let m := mkAffineMap 3 0 [AffineDimExpr 0; AffineDimExpr 2] in
  isProjectedPermutation m = true
  /\ allDimExprs m = true
  /\ leadingProjectedDims m = 0%nat
  /\ getReducedPermutation false m = Aborted (AssertionFailure "invalid permutation map")
  /\ getReducedPermutation true m = Returned [4294967295; 1]
  /\ forall NDEBUG, getReducedPermutation NDEBUG m <> Returned [0; 2]
                    /\ getReducedPermutation NDEBUG m <> Returned [-1; 1].
Proof.
  repeat (split; [reflexivity|]). intros [|]; split; discriminate.
Qed.

(** C6 (as amended): for every projected-permutation map whose
    projected-out dimensions are all leading (the number of leading
    projected-out dimensions is the number of dimensions minus the number
    of results), the reduction returns, in result order, each result
    dimension's domain position minus the number of leading projected-out
    dimensions; the map over two dimensions that swaps them reduces to
    [1; 0]. *)
Theorem getReducedPermutation_leading_projection :
  (forall (NDEBUG : bool) (m : AffineMap),
     fitsUnsigned m = true ->
     isProjectedPermutation m = true ->
     leadingProjectedDims m = (getNumDims m - getNumResults m)%nat ->
     allDimExprs m = true
     /\ getReducedPermutation NDEBUG m
        = Returned (List.map (fun p => Z.of_nat p - Z.of_nat (leadingProjectedDims m))
                             (resultPositions m)))
  /\ (forall NDEBUG : bool,
        getReducedPermutation NDEBUG (mkAffineMap 2 0 [AffineDimExpr 1; AffineDimExpr 0])
        = Returned [1; 0]).
Proof.
  split; [|intros [|]; reflexivity].
  intros NDEBUG m Hfits Hproj Hlead.
  unfold isProjectedPermutation in Hproj.
  apply andb_prop in Hproj as [Hproj Hdistinct].
  apply andb_prop in Hproj as [Hsyms Hcount].
  apply Nat.eqb_eq in Hsyms. apply Nat.leb_le in Hcount.
  pose proof (distinctDims_positions _ _ Hdistinct) as Hresults.
  fold (resultPositions m) in Hresults.
  unfold fitsUnsigned in Hfits. apply andb_prop in Hfits as [Hdims Hpositions].
  apply Z.ltb_lt in Hdims. rewrite forallb_forall in Hpositions.
  split.
  { unfold allDimExprs. rewrite Hresults. apply forallb_forall.
    intros e He. apply in_map_iff in He as (p & <- & _). reflexivity. }
  unfold getReducedPermutation.
  unfold isProjectedPermutation, assertUnless.
  rewrite Hdistinct, (proj2 (Nat.eqb_eq _ _) Hsyms), (proj2 (Nat.leb_le _ _) Hcount).
  cbn [andb]. rewrite orb_true_r.
  assert (Hwrap : wrapUnsigned (Z.of_nat (getNumDims m) - Z.of_nat (getNumResults m))
                  = Z.of_nat (leadingProjectedDims m)).
  { rewrite Hlead. unfold wrapUnsigned. rewrite Z.mod_small; lia. }
  rewrite Hwrap. rewrite Hresults at 1.
  apply reduceResults_positions; [|lia].
  apply List.Forall_forall. intros p Hp. split.
  - pose proof (countLeadingUnused_unused (resultPositions m) 0 (getNumDims m) p Hp).
    unfold leadingProjectedDims. lia.
  - apply Z.ltb_lt. by apply Hpositions.
Qed.

Lemma getReducedPermutation_leading_projection_witness :
  getReducedPermutation false
    (mkAffineMap 4 0 [AffineDimExpr 3; AffineDimExpr 1; AffineDimExpr 2])
  = Returned [2; 0; 1].
Proof.
  exact (proj2 (proj1 getReducedPermutation_leading_projection false
                  (mkAffineMap 4 0 [AffineDimExpr 3; AffineDimExpr 1; AffineDimExpr 2])
                  eq_refl eq_refl eq_refl)).
Defined.

Lemma distinctDims_allDims results seen :
  distinctDims results seen = true ->
  forallb (fun e => match e with AffineDimExpr _ => true | _ => false end) results = true.
Proof.
  revert seen. induction results as [|e results IH]; intros seen Hd; [reflexivity|].
  destruct e as [p| | |]; cbn [distinctDims] in Hd; try discriminate.
  destruct (bool_decide (p ∈ seen)); [discriminate|].
  cbn [forallb andb]. by apply (IH (p :: seen)).
Qed.

Lemma reduceResults_broadcast leading results :
  forallb (fun e => match e with AffineDimExpr _ => true | _ => false end) results = false ->
  reduceResults true leading results
  = Aborted (ReportFatalError "permutation map is not a projected permutation.").
Proof.
  induction results as [|e results IH]; intros Hsome; [discriminate|].
  destruct e as [p| | |]; try reflexivity.
  cbn [forallb andb] in Hsome. cbn [reduceResults assertUnless orb].
  by rewrite (IH Hsome).
Qed.

Lemma reduction_aborts_on_broadcast NDEBUG m :
  allDimExprs m = false ->
  getReducedPermutation NDEBUG m = Aborted (broadcastFatal NDEBUG).
Proof.
  intros Hsome. unfold getReducedPermutation. destruct NDEBUG.
  - cbn [assertUnless orb]. by apply reduceResults_broadcast.
  - assert (Hnot : isProjectedPermutation m = false).
    { unfold isProjectedPermutation.
      destruct (distinctDims (getResults m) []) eqn:Hd; [|apply andb_false_r].
      apply distinctDims_allDims in Hd. unfold allDimExprs in Hsome. congruence. }
    unfold assertUnless. rewrite Hnot. reflexivity.
Qed.

(** C7: on every map with a result that is not a direct reference to a
    domain dimension the permutation reduction ends the process (a failed
    assertion, or [report_fatal_error] when assertions are compiled out);
    it returns nothing, and the transfer patterns that call it on a value
    with a layout end the same way instead of returning a no-match. *)
Theorem getReducedPermutation_broadcast_is_fatal (NDEBUG : bool) (m : AffineMap) :
  allDimExprs m = false ->
  getReducedPermutation NDEBUG m = Aborted (broadcastFatal NDEBUG)
  /\ (forall permutation, getReducedPermutation NDEBUG m <> Returned permutation)
  /\ (forall laneId visit computeSIMTIndex readOp signature vectorLayout st,
        read_permutation_map readOp = m ->
        dyn_cast_LayoutAttr (signature (TransferReadOp_getResult readOp))
        = Some vectorLayout ->
        DistributeTransferRead_matchAndRewrite NDEBUG laneId visit computeSIMTIndex
          readOp signature st = Abort (broadcastFatal NDEBUG))
  /\ (forall laneId visit computeSIMTIndex writeOp signature vectorLayout st,
        write_permutation_map writeOp = m ->
        dyn_cast_LayoutAttr (signature (write_vector writeOp)) = Some vectorLayout ->
        DistributeTransferWrite_matchAndRewrite NDEBUG laneId visit computeSIMTIndex
          writeOp signature st = Abort (broadcastFatal NDEBUG)).
Proof.
  intros Hsome. pose proof (reduction_aborts_on_broadcast NDEBUG m Hsome) as Hfatal.
  split; [exact Hfatal|]. split; [intros permutation; rewrite Hfatal; discriminate|].
  split.
  - intros laneId visit computeSIMTIndex readOp signature vectorLayout st Hmap Hlayout.
    unfold DistributeTransferRead_matchAndRewrite. rewrite Hlayout.
    unfold accessMemory. cbn [getPermutationMap TransferReadOp_XferOp].
    rewrite Hmap, Hfatal. reflexivity.
  - intros laneId visit computeSIMTIndex writeOp signature vectorLayout st Hmap Hlayout.
    unfold DistributeTransferWrite_matchAndRewrite. rewrite Hlayout.
    unfold accessMemory. cbn [getPermutationMap TransferWriteOp_XferOp].
    rewrite Hmap, Hfatal. reflexivity.
Qed.

Lemma getReducedPermutation_broadcast_is_fatal_witness :
  let m := mkAffineMap 2 0 [AffineDimExpr 1; AffineConstantExpr 0] in
  getReducedPermutation false m
  = Aborted (AssertionFailure "permutation map should be a projected permutation.")
  /\ getReducedPermutation true m
     = Aborted (ReportFatalError "permutation map is not a projected permutation.").
Proof.
  split.
  - exact (proj1 (getReducedPermutation_broadcast_is_fatal false
                    (mkAffineMap 2 0 [AffineDimExpr 1; AffineConstantExpr 0]) eq_refl)).
  - exact (proj1 (getReducedPermutation_broadcast_is_fatal true
                    (mkAffineMap 2 0 [AffineDimExpr 1; AffineConstantExpr 0]) eq_refl)).
Defined.

(** ** Transfers *)

Lemma foldM_Done {A B} (f : A -> B -> Rewrite A) (l : list B) :
  (forall a x st, exists a' st', f a x st = Done a' st') ->
  forall a st, exists a' st', foldM f l a st = Done a' st'.
Proof.
  intros Hf. induction l as [|x l IH]; intros a st.
  - by exists a, st.
  - destruct (Hf a x st) as (a1 & st1 & Hx).
    destruct (IH a1 st1) as (a2 & st2 & Hl).
    exists a2, st2. cbn [foldM]. by rewrite (bind_run _ _ _ _ _ Hx).
Qed.


Lemma DistributeTransferWrite_layout_never_no_match
  NDEBUG laneId visit computeSIMTIndex writeOp signature vectorLayout st st' :
  dyn_cast_LayoutAttr (signature (write_vector writeOp)) = Some vectorLayout ->
  DistributeTransferWrite_matchAndRewrite NDEBUG laneId visit computeSIMTIndex
    writeOp signature st <> Done failure st'.
Proof.
  intros Hlayout Hrun. unfold DistributeTransferWrite_matchAndRewrite in Hrun.
  rewrite Hlayout in Hrun.
  apply bind_Done in Hrun as (v & st1 & _ & Hrun).
  apply bind_Done in Hrun as (u & st2 & _ & Hrun).
  discriminate.
Qed.



Lemma getLoadStoreWidth_maskedLayout : getLoadStoreWidth maskedLayout = Returned 4.
Proof. vm_compute. reflexivity. Qed.

Lemma permute_maskedLayout : permute maskedLayout [0] = Returned maskedLayout.
Proof. vm_compute. reflexivity. Qed.

(** C3 (the code at the failing input): a transfer that needs masking and
    whose value has a layout is not answered with a no-match.  The masked
    read is distributed as if it had no mask and the pattern reports
    success; the masked write never gives a no-match either. *)
Theorem transfer_patterns_ignore_masking
  (NDEBUG : bool) (laneId : Value)
  (visit : LayoutAttr -> list (LayoutDimension * Z) -> list State)
  (computeSIMTIndex : State -> list Z) (st : RewriterState) :
  needsMasking (read_mask maskedRead) (read_in_bounds maskedRead) = true
  /\ needsMasking (write_mask maskedWrite) (write_in_bounds maskedWrite) = true
  /\ (exists st',
        DistributeTransferRead_matchAndRewrite NDEBUG laneId visit computeSIMTIndex
          maskedRead maskedSignature st = Done success st')
  /\ (forall st',
        DistributeTransferWrite_matchAndRewrite NDEBUG laneId visit computeSIMTIndex
          maskedWrite maskedSignature st <> Done failure st').
Proof.
  split; [reflexivity|]. split; [reflexivity|]. split.
  - unfold DistributeTransferRead_matchAndRewrite.
    cbn [maskedSignature dyn_cast_LayoutAttr].
    set (zero := arith_ConstantOp _ _).
    rewrite (bind_run _ _ st zero (addCreated st [zero]) eq_refl).
    assert (Hperm : getReducedPermutation NDEBUG (read_permutation_map maskedRead)
                    = Returned [0]) by (by destruct NDEBUG).
    unfold accessMemory. cbn [getPermutationMap TransferReadOp_XferOp getIndices].
    rewrite Hperm. cbn [lift].
    destruct (foldM_Done
                (fun accumulator state =>
                   memoryIndices <- getMemoryIndices laneId state maskedLayout
                                      (read_indices maskedRead) ;;
                   TransferRead_accessUnit maskedRead memoryIndices
                     (computeSIMTIndex state) accumulator maskedLayout maskedLayout)
                (visit maskedLayout [(VECTORX, 4)]))
      with (a := getResult zero 0) (st := addCreated st [zero])
      as (readVec & st2 & Hfold).
    { intros acc state st0.
      assert (Hindices : exists memoryIndices st1,
        getMemoryIndices laneId state maskedLayout (read_indices maskedRead) st0
        = Done memoryIndices st1).
      { unfold getMemoryIndices.
        rewrite (bind_run _ _ _ _ _ (computeSIMDIndex_run state maskedLayout laneId st0)).
        eexists _, _. reflexivity. }
      destruct Hindices as (memoryIndices & st1 & Hindices).
      rewrite (bind_run _ _ _ _ _ Hindices).
      unfold TransferRead_accessUnit. rewrite getLoadStoreWidth_maskedLayout.
      eexists _, _. reflexivity. }
    eexists. unfold bind at 1.
    rewrite bind_ret_l, permute_maskedLayout. cbn [lift].
    rewrite bind_ret_l, getLoadStoreWidth_maskedLayout. cbn [lift].
    rewrite bind_ret_l. cbn [accessUnit TransferReadOp_XferOp].
    rewrite Hfold. reflexivity.
  - intros st'. by apply (DistributeTransferWrite_layout_never_no_match
                            _ _ _ _ _ _ maskedLayout).
Qed.

(** The masked read, with one state visited: the pattern creates the zero
    accumulator, the address arithmetic, and a plain [vector.load] that
    is inserted into the accumulator; the mask is not used by any of the
    created operations. *)
Example masked_read_is_loaded_unmasked :
  exists st',
    DistributeTransferRead_matchAndRewrite false (Existing 9 (Scalar IndexType))
      (fun _ _ => [[(VECTORX, 0)]]) (fun _ => [0])
      maskedRead maskedSignature emptyRewriterState = Done success st'
    /\ List.map getName (created st')
       = ["arith.constant"; "arith.constant"; "arith.constant"; "arith.constant";
          "affine.delinearize_index"; "affine.apply"; "arith.addi";
          "vector.load"; "vector.insert_strided_slice"]%string
    /\ Forall (fun op => Forall (fun v => Some v <> read_mask maskedRead)
                                (getOperands op))
              (created st').
Proof.
  match goal with |- exists st', ?run = _ /\ _ => set (outcome := run) end.
  vm_compute in outcome. subst outcome.
  eexists. split; [reflexivity|]. split; [reflexivity|].
  cbn [created]. repeat constructor; discriminate.
Qed.

(** * Further properties *)

(** ** [computeSIMDIndex] *)




Lemma fold_left_ext_in {A B} (f g : A -> B -> A) (l : list B) (a : A) :
  (forall a x, In x l -> f a x = g a x) -> fold_left f l a = fold_left g l a.
Proof.
  revert a. induction l as [|x l IH]; intros a Hfg; [reflexivity|].
  cbn [fold_left]. rewrite (Hfg a x (or_introl eq_refl)).
  apply IH. intros a' y Hy. apply Hfg. by right.
Qed.

Lemma dimOffset_agree state1 state2 d :
  (forall label, In label (List.map fst (entries d)) -> isLane label = false ->
                 State_lookup state1 label = State_lookup state2 label) ->
  dimOffset state1 d = dimOffset state2 d.
Proof.
  intros Hagree. unfold dimOffset. f_equal. apply fold_left_ext_in.
  intros [offset stride] [label shape] Hin. apply in_rev in Hin.
  assert (Hl : In label (List.map fst (entries d))).
  { apply in_map_iff. by exists (label, shape). }
  unfold offsetStep. destruct label; try reflexivity;
    by rewrite (Hagree _ Hl eq_refl).
Qed.

Lemma mapM_ext_in {A B} (f g : A -> Rewrite B) (l : list A) :
  (forall x, In x l -> f x = g x) -> mapM f l = mapM g l.
Proof.
  induction l as [|x l IH]; intros Hfg; [reflexivity|].
  cbn [mapM]. rewrite (Hfg x (or_introl eq_refl)), IH; [reflexivity|].
  intros y Hy. apply Hfg. by right.
Qed.

(** X2: [computeSIMDIndex] reads the iteration state only at the non-lane
    labels of the layout.  Two states that agree there (whatever they hold
    for lane labels or for labels outside the layout) give the same
    outcome: the same operations are created and the same values returned. *)
Theorem computeSIMDIndex_reads_only_non_lane_labels
  (layout : LayoutAttr) (laneId : Value) (state1 state2 : State) (st : RewriterState) :
  (forall label, In label (layoutLabels layout) -> isLane label = false ->
                 State_lookup state1 label = State_lookup state2 label) ->
  computeSIMDIndex state1 layout laneId st = computeSIMDIndex state2 layout laneId st.
Proof.
  intros Hagree. unfold computeSIMDIndex.
  rewrite (mapM_ext_in (computeSIMDIndexDim state1 layout laneId)
                       (computeSIMDIndexDim state2 layout laneId)); [reflexivity|].
  intros d Hd. unfold computeSIMDIndexDim.
  rewrite (dimOffset_agree state1 state2 d); [reflexivity|].
  intros label Hl Hnl. apply Hagree; [|exact Hnl].
  unfold layoutLabels. apply in_flat_map. by exists d.
Qed.

Lemma computeSIMDIndex_reads_only_non_lane_labels_witness :
  let layout := mkLayout [mkPerDimLayout [LANEX; VECTORX] [2; 4]] (2, 1, 1) in
  let laneId := Existing 7 (Scalar IndexType) in
  computeSIMDIndex [(VECTORX, 3)] layout laneId emptyRewriterState
  = computeSIMDIndex [(LANEX, 1); (OTHER 5, 9); (VECTORX, 3)] layout laneId
      emptyRewriterState.
Proof.
  apply (computeSIMDIndex_reads_only_non_lane_labels
           (mkLayout [mkPerDimLayout [LANEX; VECTORX] [2; 4]] (2, 1, 1))
           (Existing 7 (Scalar IndexType))
           [(VECTORX, 3)] [(LANEX, 1); (OTHER 5, 9); (VECTORX, 3)] emptyRewriterState).
  intros label Hin Hnl. cbn in Hin.
  destruct Hin as [<-|[<-|[]]]; [discriminate | reflexivity].
Defined.

Lemma product_snoc (l : list Z) (x : Z) :
  fold_right Z.mul 1 (l ++ [x]) = fold_right Z.mul 1 l * x.
Proof. induction l as [|y l IH]; cbn [fold_right app]; [lia | rewrite IH; lia]. Qed.

Lemma product_rev (l : list Z) :
  fold_right Z.mul 1 (rev l) = fold_right Z.mul 1 l.
Proof.
  induction l as [|y l IH]; [reflexivity|].
  cbn [rev fold_right]. rewrite product_snoc, IH. lia.
Qed.

Lemma hornerValue_bounds state coords es :
  forallb (digitInRange state coords) es = true ->
  0 <= hornerValue state coords es < fold_right Z.mul 1 (List.map snd es).
Proof.
  induction es as [|[l e] es IH]; intros Hr; [cbn; lia|].
  cbn [forallb] in Hr. apply andb_prop in Hr as [Hd Hr].
  unfold digitInRange in Hd. cbn [fst snd] in Hd.
  apply andb_prop in Hd as [Hlo Hhi]. apply Z.leb_le in Hlo. apply Z.ltb_lt in Hhi.
  specialize (IH Hr). cbn [hornerValue List.map fold_right snd]. nia.
Qed.

Lemma mixedRadixAddress_horner state coords d :
  mixedRadixAddress state coords d = hornerValue state coords (rev (entries d)).
Proof. unfold mixedRadixAddress. rewrite walkMixedRadix_horner. lia. Qed.

Lemma Forall2_map_self {A B} (R : B -> A -> Prop) (f : A -> B) (l : list A) :
  (forall x, In x l -> R (f x) x) -> Forall2 R (List.map f l) l.
Proof.
  induction l as [|x l IH]; intros HR; [constructor|].
  cbn [List.map]. constructor; [apply HR; by left|].
  apply IH. intros y Hy. apply HR. by right.
Qed.

Lemma evalValue_simdIndex env state layout laneId lane d :
  evalValue env laneId = Some lane ->
  evalValue env (getResult (simdIndexOp state layout laneId d) 0)
  = Some (mixedRadixAddress state (laneCoordinates layout lane) d).
Proof.
  intros Hlane. rewrite (evalValue_simdIndexOp _ _ _ _ _ _ _ Hlane).
  destruct (laneCoordinates layout lane) as [[x y] z].
  by rewrite dimOffset_mixedRadix.
Qed.

(** X3: when every digit is within its extent (the state's positions and
    the lane's coordinates, for every entry of every dimension), the
    address [computeSIMDIndex] computes for a dimension is at least 0 and
    less than the product of the dimension's extents. *)
Theorem computeSIMDIndex_address_in_bounds
  (state : State) (layout : LayoutAttr) (laneId : Value) (env : nat -> Z) (lane : Z)
  (st : RewriterState) :
  evalValue env laneId = Some lane ->
  digitsInRange state (laneCoordinates layout lane) layout = true ->
  exists simdIndex st',
    computeSIMDIndex state layout laneId st = Done simdIndex st'
    /\ Forall2 (fun index d =>
                  exists address, evalValue env index = Some address
                                  /\ 0 <= address < dimExtent d)
               simdIndex (getLayouts layout).
Proof.
  intros Hlane Hrange. eexists _, _. split; [apply computeSIMDIndex_run|].
  apply Forall2_map_self. intros d Hd. eexists. split; [by apply evalValue_simdIndex|].
  unfold digitsInRange in Hrange. rewrite forallb_forall in Hrange.
  specialize (Hrange d Hd).
  rewrite mixedRadixAddress_horner. unfold dimExtent.
  rewrite <- product_rev, <- List.map_rev.
  apply hornerValue_bounds.
  rewrite forallb_forall in *. intros e He. apply Hrange. by apply in_rev.
Qed.

Lemma computeSIMDIndex_address_in_bounds_witness :
  let layout := mkLayout [mkPerDimLayout [LANEX; VECTORX] [2; 4]] (2, 1, 1) in
  exists simdIndex st',
    computeSIMDIndex [(VECTORX, 3)] layout (Existing 7 (Scalar IndexType))
      emptyRewriterState = Done simdIndex st'
    /\ Forall2 (fun index d =>
                  exists address, evalValue (fun _ => 1) index = Some address
                                  /\ 0 <= address < dimExtent d)
               simdIndex (getLayouts layout).
Proof.
  exact (computeSIMDIndex_address_in_bounds
           [(VECTORX, 3)] (mkLayout [mkPerDimLayout [LANEX; VECTORX] [2; 4]] (2, 1, 1))
           (Existing 7 (Scalar IndexType)) (fun _ => 1) 1 emptyRewriterState
           eq_refl eq_refl).
Defined.

Lemma hornerValue_splits state coords es :
  hornerValue state coords es
  = hornerValue state (0, 0, 0) es + hornerValue [] coords es.
Proof.
  induction es as [|[l e] es IH]; [reflexivity|].
  cbn [hornerValue]. rewrite IH.
  destruct coords as [[x y] z]. destruct l; cbn [contribution State_lookup]; lia.
Qed.

Lemma laneCoordinates_zero layout : laneCoordinates layout 0 = (0, 0, 0).
Proof.
  rewrite laneCoordinates_formula. destruct (getLaneGrid layout) as [[X Y] Z].
  by rewrite !Zmod_0_l, !Zdiv_0_l.
Qed.

(** X4: the address of a dimension is the sum of a part that depends on the
    iteration state only and a part that depends on the lane only: the
    address the state has on lane 0, plus the address the lane has in the
    state with all positions 0. *)
Theorem computeSIMDIndex_address_splits
  (state : State) (layout : LayoutAttr) (laneId : Value) (env env0 : nat -> Z)
  (lane : Z) (st : RewriterState) :
  evalValue env laneId = Some lane ->
  evalValue env0 laneId = Some 0 ->
  exists simdIndex st1 zeroStateIndex st2 (statePart lanePart : list Z),
    computeSIMDIndex state layout laneId st = Done simdIndex st1
    /\ computeSIMDIndex [] layout laneId st = Done zeroStateIndex st2
    /\ List.map (evalValue env0) simdIndex = List.map Some statePart
    /\ List.map (evalValue env) zeroStateIndex = List.map Some lanePart
    /\ List.map (evalValue env) simdIndex
       = List.map Some (zip_with Z.add statePart lanePart).
Proof.
  intros Hlane Hzero.
  eexists _, _, _, _,
         (List.map (fun d => hornerValue state (0, 0, 0) (rev (entries d)))
                   (getLayouts layout)),
         (List.map (fun d => hornerValue [] (laneCoordinates layout lane) (rev (entries d)))
                   (getLayouts layout)).
  split; [apply computeSIMDIndex_run|]. split; [apply computeSIMDIndex_run|].
  rewrite !List.map_map.
  split; [|split].
  - apply List.map_ext. intros d.
    rewrite (evalValue_simdIndex _ _ _ _ _ _ Hzero), laneCoordinates_zero.
    by rewrite mixedRadixAddress_horner.
  - apply List.map_ext. intros d.
    rewrite (evalValue_simdIndex _ _ _ _ _ _ Hlane).
    by rewrite mixedRadixAddress_horner.
  - induction (getLayouts layout) as [|d ds IH]; [reflexivity|].
    cbn [List.map zip_with]. rewrite IH. f_equal.
    rewrite (evalValue_simdIndex _ _ _ _ _ _ Hlane), mixedRadixAddress_horner.
    by rewrite hornerValue_splits.
Qed.

Lemma computeSIMDIndex_address_splits_witness :
  let layout := mkLayout [mkPerDimLayout [LANEX; VECTORX] [2; 4]] (2, 1, 1) in
  let laneId := Existing 7 (Scalar IndexType) in
  exists simdIndex st1 zeroStateIndex st2 (statePart lanePart : list Z),
    computeSIMDIndex [(VECTORX, 3)] layout laneId emptyRewriterState
    = Done simdIndex st1
    /\ computeSIMDIndex [] layout laneId emptyRewriterState = Done zeroStateIndex st2
    /\ List.map (evalValue (fun _ => 0)) simdIndex = List.map Some statePart
    /\ List.map (evalValue (fun _ => 1)) zeroStateIndex = List.map Some lanePart
    /\ List.map (evalValue (fun _ => 1)) simdIndex
       = List.map Some (zip_with Z.add statePart lanePart).
Proof.
  exact (computeSIMDIndex_address_splits
           [(VECTORX, 3)] (mkLayout [mkPerDimLayout [LANEX; VECTORX] [2; 4]] (2, 1, 1))
           (Existing 7 (Scalar IndexType)) (fun _ => 1) (fun _ => 0) 1
           emptyRewriterState eq_refl eq_refl).
Defined.

(** X5: the lane coordinates the address computations are applied to
    recompose to the lane identity.  With positive X and Y extents of the
    lane grid, the three operands evaluate to (x, y, z) with
    lane = x + X * (y + Y * z), 0 <= x < X and 0 <= y < Y; z is within the
    Z extent exactly when the lane identity is within the grid, since the
    Z extent takes no part in the decomposition. *)
Theorem laneGridVals_recompose
  (layout : LayoutAttr) (laneId : Value) (env : nat -> Z) (lane : Z) :
  evalValue env laneId = Some lane ->
  let '(X, Y, Z) := getLaneGrid layout in
  0 < X -> 0 < Y ->
  exists x y z,
    List.map (evalValue env) (laneGridVals layout laneId) = [Some x; Some y; Some z]
    /\ lane = x + X * (y + Y * z)
    /\ 0 <= x < X /\ 0 <= y < Y
    /\ (0 < Z -> (0 <= z < Z <-> 0 <= lane < X * Y * Z)).
Proof.
  intros Hlane. pose proof (evalValue_laneGridVals env layout laneId lane Hlane) as Hvals.
  rewrite laneCoordinates_formula in Hvals.
  destruct (getLaneGrid layout) as [[X Y] Z]. intros HX HY.
  exists ((lane mod (Y * X)) mod X), ((lane mod (Y * X)) / X), (lane / (Y * X)).
  split.
  { unfold laneGridVals in *. cbn [List.map sequence] in *.
    destruct (evalValue env (getResult (laneDelinearization layout laneId) 2));
      [|discriminate].
    destruct (evalValue env (getResult (laneDelinearization layout laneId) 1));
      [|discriminate].
    destruct (evalValue env (getResult (laneDelinearization layout laneId) 0));
      [|discriminate].
    by inversion Hvals. }
  assert (HYX : 0 < Y * X) by nia.
  pose proof (Z.div_mod lane (Y * X) ltac:(lia)) as Hdm.
  pose proof (Z.mod_pos_bound lane (Y * X) HYX) as Hr.
  pose proof (Z.div_mod (lane mod (Y * X)) X ltac:(lia)) as Hdm2.
  pose proof (Z.mod_pos_bound (lane mod (Y * X)) X HX) as Hx.
  set (r := lane mod (Y * X)) in *. set (z := lane / (Y * X)) in *.
  set (y := r / X) in *. set (x := r mod X) in *.
  split; [nia|]. split; [lia|]. split; [nia|].
  intros HZ. split; intros H; nia.
Qed.

Lemma laneGridVals_recompose_witness :
  let layout := mkLayout [] (2, 3, 4) in
  exists x y z,
    List.map (evalValue (fun _ => 17)) (laneGridVals layout (Existing 7 (Scalar IndexType)))
    = [Some x; Some y; Some z]
    /\ 17 = x + 2 * (y + 3 * z)
    /\ 0 <= x < 2 /\ 0 <= y < 3
    /\ (0 < 4 -> (0 <= z < 4 <-> 0 <= 17 < 2 * 3 * 4)).
Proof.
  exact (laneGridVals_recompose (mkLayout [] (2, 3, 4)) (Existing 7 (Scalar IndexType))
           (fun _ => 17) 17 eq_refl eq_refl eq_refl).
Defined.

(** ** [DistributeConstants] *)

(** X6: the splat-constant pattern has three outcomes and no other.  It
    succeeds exactly when the result is vector-typed, the value is a splat
    and a layout is assigned, and then it has created one operation,
    recorded one replacement and erased nothing; it stops at the call
    through the missing layout exactly when the result is vector-typed, the
    value is a splat and no layout is assigned. *)
Theorem DistributeConstants_outcomes
  (constantOp : ConstantOp) (signature : DistributionSignature) (st : RewriterState) :
  let constant := ConstantOp_getResult constantOp in
  let distributable :=
    dyn_cast_VectorValue constant <> None
    /\ dyn_cast_SplatElementsAttr (getValue constantOp) <> None in
  ((exists st', DistributeConstants_matchAndRewrite constantOp signature st
                = Done success st')
   <-> distributable /\ signature constant <> None)
  /\ ((exists f, DistributeConstants_matchAndRewrite constantOp signature st = Abort f)
      <-> distributable /\ signature constant = None)
  /\ (forall st', DistributeConstants_matchAndRewrite constantOp signature st
                  = Done success st' ->
        length (created st') = S (length (created st))
        /\ length (replaced st') = S (length (replaced st))
        /\ erased st' = erased st).
Proof.
  cbv zeta. unfold DistributeConstants_matchAndRewrite.
  destruct (dyn_cast_VectorValue (ConstantOp_getResult constantOp)) as [[shape e]|];
    [destruct (dyn_cast_SplatElementsAttr (getValue constantOp)) as [splat|];
     [destruct (signature (ConstantOp_getResult constantOp)) as [L|]|]|].
  - split; [|split].
    + split; [intros _; repeat split; discriminate | intros _; by eexists].
    + split; [intros [f Hf]; discriminate | intros [_ Hn]; discriminate].
    + intros st' Hrun. inversion Hrun. cbn [created replaced erased].
      rewrite !length_app. cbn [length]. repeat split; lia.
  - split; [|split].
    + split; [intros [st' Hrun]; discriminate | intros [_ Hn]; by destruct Hn].
    + split; [intros _; repeat split; discriminate | intros _; by eexists].
    + intros st' Hrun. discriminate.
  - split; [|split].
    + split; [intros [st' Hrun]; discriminate | intros [[_ Hn] _]; by destruct Hn].
    + split; [intros [f Hf]; discriminate | intros [[_ Hn] _]; by destruct Hn].
    + intros st' Hrun. discriminate.
  - split; [|split].
    + split; [intros [st' Hrun]; discriminate | intros [[Hn _] _]; by destruct Hn].
    + split; [intros [f Hf]; discriminate | intros [[Hn _] _]; by destruct Hn].
    + intros st' Hrun. discriminate.
Qed.

Lemma DistributeConstants_outcomes_witness :
  let f32 := FloatType 32 in
  let constantOp :=
    mkConstantOp (VectorType [8] f32)
                 (SplatElementsAttr (VectorType [8] f32) (FloatAttr 0)) in
  let L := IsLayoutAttr (mkLayout [mkPerDimLayout [LANEX; VECTORX] [2; 4]] (2, 1, 1)) in
  (exists st', DistributeConstants_matchAndRewrite constantOp (fun _ => Some L)
                 emptyRewriterState = Done success st')
  /\ (exists f, DistributeConstants_matchAndRewrite constantOp (fun _ => None)
                  emptyRewriterState = Abort f).
Proof.
  intros f32 constantOp L. split.
  - apply (proj1 (DistributeConstants_outcomes constantOp (fun _ => Some L)
                    emptyRewriterState)).
    repeat split; discriminate.
  - apply (proj1 (proj2 (DistributeConstants_outcomes constantOp (fun _ => None)
                           emptyRewriterState))).
    repeat split; try discriminate.
Defined.

(** ** [DistributeElementwise] *)








(** ** [getReducedPermutation] *)

Lemma reduceResults_without_assertions leading results permutation :
  reduceResults false leading results = Returned permutation ->
  reduceResults true leading results = Returned permutation.
Proof.
  revert permutation. induction results as [|e results IH]; intros permutation Hrun.
  - exact Hrun.
  - destruct e as [p| | |]; try discriminate.
    cbn [reduceResults] in *. unfold assertUnless in *. cbn [orb] in *.
    destruct (leading <=? Z.of_nat p); [|discriminate].
    destruct (reduceResults false leading results) as [perm|f]; [|discriminate].
    by rewrite (IH perm eq_refl).
Qed.

(** X9: compiling the assertions out does not change a result: whatever
    the reduction returns in a build with assertions, it returns in a build
    without them. *)
Theorem getReducedPermutation_without_assertions
  (m : AffineMap) (permutation : list Z) :
  getReducedPermutation false m = Returned permutation ->
  getReducedPermutation true m = Returned permutation.
Proof.
  unfold getReducedPermutation, assertUnless. cbn [orb].
  destruct (isProjectedPermutation m); [|discriminate].
  apply reduceResults_without_assertions.
Qed.

Lemma getReducedPermutation_without_assertions_witness :
  getReducedPermutation true
    (mkAffineMap 3 0 [AffineDimExpr 2; AffineDimExpr 1]) = Returned [1; 0].
Proof.
  exact (getReducedPermutation_without_assertions
           (mkAffineMap 3 0 [AffineDimExpr 2; AffineDimExpr 1]) [1; 0] eq_refl).
Defined.

Lemma distinctDims_NoDup results seen :
  distinctDims results seen = true ->
  NoDup (flat_map (fun e => match e with AffineDimExpr p => [p] | _ => [] end) results).
Proof.
  assert (Hgen : forall results seen, distinctDims results seen = true ->
    NoDup (flat_map (fun e => match e with AffineDimExpr p => [p] | _ => [] end) results)
    /\ forall p,
         In p (flat_map (fun e => match e with AffineDimExpr p => [p] | _ => [] end) results)
         -> ~ In p seen).
  { clear. induction results as [|e results IH]; intros seen Hd.
    - split; [constructor | intros p []].
    - destruct e as [p| | |]; cbn [distinctDims] in Hd; try discriminate.
      destruct (bool_decide (p ∈ seen)) eqn:Hmem; [discriminate|].
      apply bool_decide_eq_false in Hmem.
      destruct (IH (p :: seen) Hd) as [Hnodup Hfresh].
      cbn [flat_map app]. split.
      + constructor; [|exact Hnodup].
        rewrite list_elem_of_In. intros Hin. apply (Hfresh p Hin). by left.
      + intros q [<-|Hq].
        * intros Hin. apply Hmem. by apply list_elem_of_In.
        * intros Hin. apply (Hfresh q Hq). by right. }
  intros Hd. by apply (Hgen results seen).
Qed.

Lemma reduceResults_assertions_Returned leading positions permutation :
  reduceResults false leading (List.map AffineDimExpr positions) = Returned permutation ->
  Forall (fun p => leading <= Z.of_nat p) positions
  /\ permutation = List.map (fun p => wrapUnsigned (Z.of_nat p - leading)) positions.
Proof.
  revert permutation. induction positions as [|p positions IH]; intros permutation Hrun.
  - inversion Hrun. split; [constructor | reflexivity].
  - cbn [List.map reduceResults] in Hrun. unfold assertUnless in Hrun. cbn [orb] in Hrun.
    destruct (leading <=? Z.of_nat p) eqn:Hle; [|discriminate].
    destruct (reduceResults false leading (List.map AffineDimExpr positions))
      as [perm|f]; [|discriminate].
    inversion Hrun. destruct (IH perm eq_refl) as [Hall ->].
    split; [|reflexivity]. constructor; [by apply Z.leb_le | exact Hall].
Qed.

(** X10: in a build with assertions, whatever the reduction returns for a
    well-formed map is a permutation of the positions 0 .. n-1, n the number
    of results: it has n entries, all within range and no two equal.  So
    [permute] accepts it on every layout with n dimensions. *)
Theorem getReducedPermutation_returns_permutation
  (m : AffineMap) (permutation : list Z) :
  fitsUnsigned m = true ->
  dimsInDomain m = true ->
  getReducedPermutation false m = Returned permutation ->
  isPermutationOf (getNumResults m) permutation = true
  /\ forall layout, length (getLayouts layout) = getNumResults m ->
       exists memoryLayout,
         permute layout permutation = Returned memoryLayout
         /\ length (getLayouts memoryLayout) = getNumResults m
         /\ getLaneGrid memoryLayout = getLaneGrid layout.
Proof.
  intros Hfits Hdomain Hrun.
  assert (Hperm : isPermutationOf (getNumResults m) permutation = true).
  { unfold getReducedPermutation, assertUnless in Hrun. cbn [orb] in Hrun.
    destruct (isProjectedPermutation m) eqn:Hproj; [|discriminate].
    unfold isProjectedPermutation in Hproj.
    apply andb_prop in Hproj as [Hproj Hdistinct].
    apply andb_prop in Hproj as [Hsyms Hcount].
    apply Nat.eqb_eq in Hsyms. apply Nat.leb_le in Hcount.
    pose proof (distinctDims_positions _ _ Hdistinct) as Hresults.
    pose proof (distinctDims_NoDup _ _ Hdistinct) as Hnodup.
    fold (resultPositions m) in Hresults, Hnodup.
    unfold fitsUnsigned in Hfits. apply andb_prop in Hfits as [Hdims Hpositions].
    apply Z.ltb_lt in Hdims. rewrite forallb_forall in Hpositions.
    unfold dimsInDomain in Hdomain. rewrite forallb_forall in Hdomain.
    assert (Hlen : getNumResults m = length (resultPositions m)).
    { unfold getNumResults. rewrite Hresults at 1. apply List.length_map. }
    set (leading := wrapUnsigned (Z.of_nat (getNumDims m) - Z.of_nat (getNumResults m)))
      in Hrun.
    assert (Hleading : leading = Z.of_nat (getNumDims m) - Z.of_nat (getNumResults m)).
    { unfold leading, wrapUnsigned. rewrite Z.mod_small; lia. }
    rewrite Hresults in Hrun.
    apply reduceResults_assertions_Returned in Hrun as [Hge ->].
    rewrite List.Forall_forall in Hge.
    assert (Heq : List.map (fun p => wrapUnsigned (Z.of_nat p - leading)) (resultPositions m)
                  = List.map (fun p => Z.of_nat p - leading) (resultPositions m)).
    { apply List.map_ext_in. intros p Hp. unfold wrapUnsigned.
      specialize (Hge p Hp). specialize (Hpositions p Hp). apply Z.ltb_lt in Hpositions.
      rewrite Z.mod_small; lia. }
    rewrite Heq. unfold isPermutationOf.
    rewrite List.length_map, <- Hlen, Nat.eqb_refl. cbn [andb].
    apply andb_true_intro. split.
    - apply forallb_forall. intros q Hq. apply in_map_iff in Hq as (p & <- & Hp).
      specialize (Hge p Hp). specialize (Hdomain p Hp). apply Nat.ltb_lt in Hdomain.
      apply andb_true_intro. split; [apply Z.leb_le | apply Z.ltb_lt]; lia.
    - apply bool_decide_eq_true.
      assert (Hinj : Inj eq eq (fun p : nat => Z.of_nat p - leading))
        by (intros p q Hpq; lia).
      exact (NoDup_fmap_2 (fun p : nat => Z.of_nat p - leading) _ Hnodup). }
  split; [exact Hperm|].
  intros layout Hlayout. unfold permute. rewrite Hlayout, Hperm.
  eexists. split; [reflexivity|]. cbn [getLayouts getLaneGrid].
  split; [|reflexivity]. rewrite List.length_map.
  unfold isPermutationOf in Hperm. apply andb_prop in Hperm as [Hperm _].
  apply andb_prop in Hperm as [Hperm _]. by apply Nat.eqb_eq in Hperm.
Qed.

Lemma getReducedPermutation_returns_permutation_witness :
  isPermutationOf 2 [1; 0] = true
  /\ forall layout, length (getLayouts layout) = 2%nat ->
       exists memoryLayout,
         permute layout [1; 0] = Returned memoryLayout
         /\ length (getLayouts memoryLayout) = 2%nat
         /\ getLaneGrid memoryLayout = getLaneGrid layout.
Proof.
  exact (getReducedPermutation_returns_permutation
           (mkAffineMap 3 0 [AffineDimExpr 2; AffineDimExpr 1]) [1; 0]
           eq_refl eq_refl eq_refl).
Defined.

Lemma distinctDims_seq k a seen :
  (forall s, In s seen -> (s < a)%nat) ->
  distinctDims (List.map AffineDimExpr (seq a k)) seen = true.
Proof.
  revert a seen. induction k as [|k IH]; intros a seen Hseen; [reflexivity|].
  cbn [seq List.map distinctDims].
  rewrite bool_decide_eq_false_2.
  - apply IH. intros s [<-|Hs]; [lia|]. specialize (Hseen s Hs). lia.
  - rewrite list_elem_of_In. intros Hin. specialize (Hseen a Hin). lia.
Qed.

Lemma positions_of_dims positions :
  flat_map (fun e => match e with AffineDimExpr p => [p] | _ => [] end)
           (List.map AffineDimExpr positions) = positions.
Proof. induction positions as [|p ps IH]; [reflexivity|]. cbn. by rewrite IH. Qed.

Lemma shift_seq_from a b k :
  List.map (fun p => Z.of_nat p - Z.of_nat a) (seq (a + b) k)
  = List.map Z.of_nat (seq b k).
Proof.
  revert b. induction k as [|k IH]; intros b; [reflexivity|].
  cbn [seq List.map]. f_equal; [lia|].
  rewrite <- (IH (S b)). by rewrite Nat.add_succ_r.
Qed.

Lemma shift_seq a k :
  List.map (fun p => Z.of_nat p - Z.of_nat a) (seq a k) = List.map Z.of_nat (seq 0 k).
Proof. rewrite <- (shift_seq_from a 0 k). by rewrite Nat.add_0_r. Qed.

Lemma map_nth_seq {A} (l : list A) (d : A) :
  List.map (fun i => nth i l d) (seq 0 (length l)) = l.
Proof.
  induction l as [|x l IH]; [reflexivity|].
  cbn [length seq List.map nth]. f_equal.
  rewrite <- seq_shift, List.map_map. exact IH.
Qed.

Lemma isPermutationOf_identity k : isPermutationOf k (identityPermutation k) = true.
Proof.
  unfold isPermutationOf, identityPermutation.
  rewrite List.length_map, length_seq, Nat.eqb_refl. cbn [andb].
  apply andb_true_intro. split.
  - apply forallb_forall. intros q Hq. apply in_map_iff in Hq as (p & <- & Hp).
    apply in_seq in Hp. apply andb_true_intro.
    split; [apply Z.leb_le | apply Z.ltb_lt]; lia.
  - apply bool_decide_eq_true.
    assert (Hinj : Inj eq eq Z.of_nat) by (intros p q Hpq; lia).
    exact (NoDup_fmap_2 Z.of_nat _ (NoDup_seq 0 k)).
Qed.

(** X11: a transfer whose permutation map is a minor identity (the last k
    of n dimensions, in order) accesses memory in the register layout.  The
    reduction of the map is the identity permutation of k positions, in
    both builds, and permuting a layout with k dimensions by it gives the
    layout back. *)
Theorem minor_identity_keeps_layout
  (NDEBUG : bool) (n k : nat) (layout : LayoutAttr) :
  (k <= n)%nat -> Z.of_nat n < 2 ^ 32 ->
  getReducedPermutation NDEBUG (minorIdentityMap n k) = Returned (identityPermutation k)
  /\ (length (getLayouts layout) = k ->
      permute layout (identityPermutation k) = Returned layout).
Proof.
  intros Hk Hn. split.
  - unfold getReducedPermutation, minorIdentityMap, isProjectedPermutation, assertUnless.
    cbn [getNumSymbols getNumDims getResults getNumResults].
    unfold getNumResults. cbn [getResults].
    rewrite List.length_map, length_seq.
    rewrite distinctDims_seq by (intros s []).
    replace (k <=? n + 0)%nat with true by (symmetry; apply Nat.leb_le; lia).
    cbn [Nat.eqb andb]. rewrite orb_true_r.
    assert (Hwrap : wrapUnsigned (Z.of_nat n - Z.of_nat k) = Z.of_nat (n - k)).
    { unfold wrapUnsigned. rewrite Z.mod_small; lia. }
    rewrite Hwrap, reduceResults_positions.
    + unfold identityPermutation. by rewrite shift_seq.
    + apply List.Forall_forall. intros p Hp. apply in_seq in Hp. lia.
    + lia.
  - intros Hlen. unfold permute. rewrite Hlen, isPermutationOf_identity.
    unfold identityPermutation. rewrite List.map_map.
    rewrite (List.map_ext _ (fun i => nth i (getLayouts layout) (mkPerDimLayout [] [])))
      by (intros i; by rewrite Nat2Z.id).
    rewrite <- Hlen, map_nth_seq. by destruct layout.
Qed.

Lemma minor_identity_keeps_layout_witness :
  let layout := mkLayout [mkPerDimLayout [LANEY] [4];
                          mkPerDimLayout [LANEX; VECTORX] [2; 4]] (2, 4, 1) in
  getReducedPermutation false (minorIdentityMap 3 2) = Returned [0; 1]
  /\ permute layout [0; 1] = Returned layout.
Proof.
  intros layout.
  destruct (minor_identity_keeps_layout false 3 2 layout) as [Hreduce Hpermute];
    [lia | reflexivity |].
  split; [exact Hreduce | exact (Hpermute eq_refl)].
Defined.

(** ** [getLoadStoreWidth] *)

Lemma lookupShape_absent label es :
  ~ In label (List.map fst es) -> lookupShape label es = None.
Proof.
  induction es as [|[l s] es IH]; intros Hnot; [reflexivity|].
  cbn [lookupShape]. destruct (decide (l = label)) as [->|Hne].
  - exfalso. apply Hnot. by left.
  - apply IH. intros Hin. apply Hnot. by right.
Qed.

Lemma lookupShape_first label before w after :
  ~ In label (List.map fst before) ->
  lookupShape label (before ++ (label, w) :: after) = Some w.
Proof.
  induction before as [|[l s] before IH]; intros Hnot.
  - cbn [app lookupShape]. by rewrite decide_True.
  - cbn [app lookupShape]. destruct (decide (l = label)) as [->|Hne].
    + exfalso. apply Hnot. by left.
    + apply IH. intros Hin. apply Hnot. by right.
Qed.

(** X12: the load/store width is decided by the last dimension of the
    layout alone.  It is 1 when that dimension has no [VECTORX] entry, and
    the extent of its first [VECTORX] entry when it has one (for an extent
    that is a value of type [int]); a layout without dimensions has no
    width. *)
Theorem getLoadStoreWidth_of_last_dimension
  (dims : list PerDimLayoutAttr) (fastestChanging : PerDimLayoutAttr)
  (grid : Z * Z * Z) :
  (~ In VECTORX (List.map fst (entries fastestChanging)) ->
   getLoadStoreWidth (mkLayout (dims ++ [fastestChanging]) grid) = Returned 1)
  /\ (forall before width after,
        entries fastestChanging = before ++ (VECTORX, width) :: after ->
        ~ In VECTORX (List.map fst before) ->
        - 2 ^ 31 <= width < 2 ^ 31 ->
        getLoadStoreWidth (mkLayout (dims ++ [fastestChanging]) grid) = Returned width)
  /\ (exists f, getLoadStoreWidth (mkLayout [] grid) = Aborted f).
Proof.
  unfold getLoadStoreWidth. cbn [getLayouts]. rewrite last_snoc.
  split; [|split].
  - intros Hnot. unfold getShape. by rewrite lookupShape_absent.
  - intros before width after Hentries Hnot Hint. unfold getShape.
    rewrite Hentries, lookupShape_first by exact Hnot.
    f_equal. unfold truncateInt.
    rewrite Z.mod_small by lia. lia.
  - by eexists.
Qed.

Lemma getLoadStoreWidth_of_last_dimension_witness :
  getLoadStoreWidth (mkLayout [mkPerDimLayout [VECTORX] [8];
                               mkPerDimLayout [LANEX; OTHER 0] [2; 4]] (2, 1, 1))
  = Returned 1
  /\ getLoadStoreWidth (mkLayout [mkPerDimLayout [LANEY] [4];
                                  mkPerDimLayout [LANEX; VECTORX] [2; 4]] (2, 4, 1))
     = Returned 4.
Proof.
  split.
  - apply (proj1 (getLoadStoreWidth_of_last_dimension
                    [mkPerDimLayout [VECTORX] [8]]
                    (mkPerDimLayout [LANEX; OTHER 0] [2; 4]) (2, 1, 1))).
    cbn. intros [H|[H|[]]]; discriminate.
  - apply (proj1 (proj2 (getLoadStoreWidth_of_last_dimension
                           [mkPerDimLayout [LANEY] [4]]
                           (mkPerDimLayout [LANEX; VECTORX] [2; 4]) (2, 4, 1)))
             [(LANEX, 2)] 4 []); [reflexivity | | lia].
    cbn. intros [H|[]]; discriminate.
Defined.

(** ** [getMemoryIndices] *)

Lemma addOffsets_run bases simdIndices st :
  length bases = length simdIndices ->
  addOffsets bases simdIndices st
  = Done (List.map (fun sum => getResult sum 0) (addressSums bases simdIndices))
         (addCreated st (addressSums bases simdIndices)).
Proof.
  revert simdIndices st. induction bases as [|b bases IH]; intros [|s ss] st Hlen;
    try discriminate.
  - cbn. unfold ret. by rewrite addCreated_nil.
  - cbn [addOffsets]. rewrite (bind_run _ _ _ _ _ (create_addCreated _ st)).
    rewrite (bind_run _ _ _ _ _ (IH ss _ ltac:(by inversion Hlen))).
    unfold ret. by rewrite addCreated_app.
Qed.

Lemma simdIndex_length state layout laneId :
  length (List.map (fun d => getResult (simdIndexOp state layout laneId d) 0)
                   (getLayouts layout)) = length (getLayouts layout).
Proof. apply List.length_map. Qed.

(** What [getMemoryIndices] returns and creates when there are at least as
    many indices as dimensions. *)
Lemma getMemoryIndices_run laneId state memoryLayout indices st :
  (length (getLayouts memoryLayout) <= length indices)%nat ->
  let leading := (length indices - length (getLayouts memoryLayout))%nat in
  let simdIndices :=
    List.map (fun d => getResult (simdIndexOp state memoryLayout laneId d) 0)
             (getLayouts memoryLayout) in
  let sums := addressSums (drop leading indices) simdIndices in
  getMemoryIndices laneId state memoryLayout indices st
  = Done (take leading indices ++ List.map (fun sum => getResult sum 0) sums)
         (addCreated st (flat_map (simdIndexOps state memoryLayout laneId)
                                  (getLayouts memoryLayout) ++ sums)).
Proof.
  intros Hlen leading simdIndices sums. unfold getMemoryIndices.
  rewrite (bind_run _ _ _ _ _ (computeSIMDIndex_run state memoryLayout laneId st)).
  fold simdIndices.
  assert (Hsimd : length simdIndices = length (getLayouts memoryLayout))
    by apply simdIndex_length.
  rewrite Hsimd.
  replace (Z.of_nat (length indices) - Z.of_nat (length (getLayouts memoryLayout)) <? 0)
    with false by (symmetry; apply Z.ltb_ge; lia).
  replace (Z.to_nat (Z.of_nat (length indices)
                     - Z.of_nat (length (getLayouts memoryLayout))))
    with leading by (unfold leading; lia).
  rewrite (bind_run _ _ _ _ _ (addOffsets_run (drop leading indices) simdIndices _
             ltac:(rewrite Hsimd, length_drop; unfold leading; lia))).
  unfold ret. by rewrite addCreated_app.
Qed.

Lemma getMemoryIndices_too_few laneId state memoryLayout indices st :
  (length indices < length (getLayouts memoryLayout))%nat ->
  getMemoryIndices laneId state memoryLayout indices st
  = Abort (AssertionFailure "index out of range").
Proof.
  intros Hlen. unfold getMemoryIndices.
  rewrite (bind_run _ _ _ _ _ (computeSIMDIndex_run state memoryLayout laneId st)).
  rewrite simdIndex_length.
  replace (Z.of_nat (length indices) - Z.of_nat (length (getLayouts memoryLayout)) <? 0)
    with true by (symmetry; apply Z.ltb_lt; lia).
  reflexivity.
Qed.

Lemma evalValue_AddIOp env lhs rhs x y :
  evalValue env lhs = Some x -> evalValue env rhs = Some y ->
  evalValue env (getResult (arith_AddIOp lhs rhs) 0) = Some (x + y).
Proof.
  intros Hx Hy. unfold arith_AddIOp. cbn [getResult evalValue List.map sequence].
  rewrite Hx, Hy. reflexivity.
Qed.

Lemma evalValue_addressSums env bases simdIndices (xs ys : list Z) :
  List.map (evalValue env) bases = List.map Some xs ->
  List.map (evalValue env) simdIndices = List.map Some ys ->
  List.map (evalValue env)
           (List.map (fun sum => getResult sum 0) (addressSums bases simdIndices))
  = List.map Some (zip_with Z.add xs ys).
Proof.
  revert simdIndices xs ys.
  induction bases as [|b bases IH]; intros [|s ss] [|x xs] [|y ys] Hb Hs;
    try discriminate; try reflexivity.
  cbn [List.map] in Hb, Hs. inversion Hb as [[Hx Hxs]]. inversion Hs as [[Hy Hys]].
  unfold addressSums. cbn [zip_with List.map].
  rewrite (evalValue_AddIOp _ _ _ _ _ Hx Hy). f_equal.
  by apply IH.
Qed.

(** X13: the memory indices of one iteration.  With at least as many base
    indices as the memory layout has dimensions, [getMemoryIndices] returns
    as many indices as it was given; the leading ones, which have no
    dimension of the layout, are the base indices themselves, and each of
    the others is at run time its base index plus the address
    [computeSIMDIndex] computes for the corresponding dimension. *)
Theorem getMemoryIndices_adds_addresses
  (laneId : Value) (state : State) (memoryLayout : LayoutAttr) (indices : list Value)
  (st : RewriterState) (env : nat -> Z) (lane : Z) (bases : list Z) :
  evalValue env laneId = Some lane ->
  List.map (evalValue env) indices = List.map Some bases ->
  (length (getLayouts memoryLayout) <= length indices)%nat ->
  let leading := (length indices - length (getLayouts memoryLayout))%nat in
  exists memoryIndices st',
    getMemoryIndices laneId state memoryLayout indices st = Done memoryIndices st'
    /\ length memoryIndices = length indices
    /\ take leading memoryIndices = take leading indices
    /\ List.map (evalValue env) (drop leading memoryIndices)
       = List.map Some
           (zip_with Z.add (drop leading bases)
              (List.map (mixedRadixAddress state (laneCoordinates memoryLayout lane))
                        (getLayouts memoryLayout))).
Proof.
  intros Hlane Hbases Hlen leading.
  eexists _, _. split; [by apply getMemoryIndices_run|]. fold leading.
  set (simdIndices := List.map _ (getLayouts memoryLayout)).
  assert (Htake : length (take leading indices) = leading).
  { rewrite length_take. unfold leading. lia. }
  assert (Hsums : length (addressSums (drop leading indices) simdIndices)
                  = length (getLayouts memoryLayout)).
  { unfold addressSums. rewrite length_zip_with, length_drop.
    unfold simdIndices. rewrite simdIndex_length. unfold leading. lia. }
  split; [|split].
  - rewrite length_app, List.length_map, Htake, Hsums. unfold leading. lia.
  - by rewrite take_app_length'.
  - rewrite drop_app_length' by (by symmetry).
    apply evalValue_addressSums.
    + change (@List.map) with (@fmap list _) in *.
      by rewrite !fmap_drop, Hbases.
    + unfold simdIndices. rewrite !List.map_map. apply List.map_ext. intros d.
      by apply evalValue_simdIndex.
Qed.

Lemma getMemoryIndices_adds_addresses_witness :
  let layout := mkLayout [mkPerDimLayout [LANEX; VECTORX] [2; 4]] (2, 1, 1) in
  let laneId := Existing 0 (Scalar IndexType) in
  let indices := [Existing 1 (Scalar IndexType); Existing 2 (Scalar IndexType)] in
  exists memoryIndices st',
    getMemoryIndices laneId [(VECTORX, 3)] layout indices emptyRewriterState
    = Done memoryIndices st'
    /\ length memoryIndices = 2%nat
    /\ take 1 memoryIndices = [Existing 1 (Scalar IndexType)]
    /\ List.map (evalValue (fun id => Z.of_nat id * 100 - 99 * Z.of_nat (id mod 2)))
                (drop 1 memoryIndices) = [Some 203].
Proof.
  exact (getMemoryIndices_adds_addresses
           (Existing 0 (Scalar IndexType)) [(VECTORX, 3)]
           (mkLayout [mkPerDimLayout [LANEX; VECTORX] [2; 4]] (2, 1, 1))
           [Existing 1 (Scalar IndexType); Existing 2 (Scalar IndexType)]
           emptyRewriterState
           (fun id => Z.of_nat id * 100 - 99 * Z.of_nat (id mod 2)) 0 [1; 200]
           eq_refl eq_refl ltac:(cbn; lia)).
Defined.


(** ** The transfer patterns *)

Lemma lift_Done {A} (c : Checked A) st a st' :
  lift c st = Done a st' -> c = Returned a /\ st' = st.
Proof. destruct c as [x|f]; [|discriminate]. intros Hrun. by inversion Hrun. Qed.

Lemma foldM_units {A B} (f : A -> B -> Rewrite A) (I : A -> Prop)
  (P : list Operation -> Prop) (l : list B) :
  (forall a x st a' st', I a -> f a x st = Done a' st' ->
     I a' /\ exists ops, P ops /\ st' = addCreated st ops) ->
  forall a st a' st', I a -> foldM f l a st = Done a' st' ->
    I a' /\ (l = [] -> a' = a)
    /\ exists units, Forall P units /\ length units = length l
                     /\ st' = addCreated st (concat units).
Proof.
  intros Hstep. induction l as [|x l IH]; intros a st a' st' Ha Hrun.
  - inversion Hrun. subst. split; [exact Ha|]. split; [reflexivity|].
    exists []. repeat split; [constructor | by rewrite addCreated_nil].
  - cbn [foldM] in Hrun. apply bind_Done in Hrun as (a1 & st1 & Hx & Hrun).
    destruct (Hstep _ _ _ _ _ Ha Hx) as (Ha1 & ops & Hops & Hst1).
    destruct (IH _ _ _ _ Ha1 Hrun) as (Ha' & _ & units & Hunits & Hlen & Hst').
    split; [exact Ha'|]. split; [discriminate|].
    exists (ops :: units). split; [by constructor|]. split; [cbn; lia|].
    cbn [concat]. by rewrite Hst', Hst1, addCreated_app.
Qed.

Lemma countNamed_app name ops1 ops2 :
  countNamed name (ops1 ++ ops2) = (countNamed name ops1 + countNamed name ops2)%nat.
Proof. unfold countNamed. by rewrite List.map_app, List.filter_app, length_app. Qed.

Lemma countNamed_index_ops name ops :
  Forall isIndexOp ops -> ~ In name indexOpNames -> countNamed name ops = 0%nat.
Proof.
  intros Hall Hnot. induction Hall as [|op ops Hop Hall IH]; [reflexivity|].
  unfold countNamed in *. cbn [List.map List.filter].
  destruct (String.eqb name (getName op)) eqn:Heq; [|exact IH].
  apply String.eqb_eq in Heq. subst name. by destruct Hnot.
Qed.

Lemma countNamed_concat name (c : nat) units :
  Forall (fun ops => countNamed name ops = c) units ->
  countNamed name (concat units) = (c * length units)%nat.
Proof.
  intros Hall. induction Hall as [|ops units Hops Hall IH]; [cbn; lia|].
  cbn [concat length]. rewrite countNamed_app, Hops, IH. lia.
Qed.

Lemma simdIndexOps_are_index_ops state layout laneId dims :
  Forall isIndexOp (flat_map (simdIndexOps state layout laneId) dims).
Proof.
  induction dims as [|d dims IH]; [constructor|].
  cbn [flat_map]. apply Forall_app. split; [|exact IH].
  unfold simdIndexOps, laneGridConstants.
  destruct (getLaneGrid layout) as [[X Y] Z].
  repeat constructor; unfold isIndexOp; cbn; tauto.
Qed.

Lemma addressSums_are_index_ops bases simdIndices :
  Forall isIndexOp (addressSums bases simdIndices).
Proof.
  revert simdIndices. induction bases as [|b bases IH]; intros [|s ss];
    try constructor; [unfold isIndexOp; cbn; tauto | apply IH].
Qed.

(** Whenever [getMemoryIndices] returns, it has created index arithmetic
    only. *)
Lemma getMemoryIndices_Done laneId state memoryLayout indices st memoryIndices st' :
  getMemoryIndices laneId state memoryLayout indices st = Done memoryIndices st' ->
  exists indexOps, Forall isIndexOp indexOps /\ st' = addCreated st indexOps.
Proof.
  intros Hrun.
  destruct (Nat.lt_ge_cases (length indices) (length (getLayouts memoryLayout)))
    as [Hlt|Hge].
  - rewrite (getMemoryIndices_too_few _ _ _ _ _ Hlt) in Hrun. discriminate.
  - rewrite (getMemoryIndices_run laneId state memoryLayout indices st Hge) in Hrun.
    inversion Hrun. eexists. split; [|reflexivity].
    apply Forall_app. split;
      [apply simdIndexOps_are_index_ops | apply addressSums_are_index_ops].
Qed.

Lemma read_unit laneId computeSIMTIndex readOp vectorLayout memoryLayout width
  accumulator state st accumulator' st' :
  getLoadStoreWidth memoryLayout = Returned width ->
  (memoryIndices <- getMemoryIndices laneId state memoryLayout (read_indices readOp) ;;
   TransferRead_accessUnit readOp memoryIndices (computeSIMTIndex state) accumulator
                           vectorLayout memoryLayout) st = Done accumulator' st' ->
  getType accumulator' = getType accumulator
  /\ exists ops,
       isReadUnit (VectorType [width] (getElementType (getType accumulator)))
                  (read_source readOp) ops
       /\ st' = addCreated st ops.
Proof.
  intros Hwidth Hrun. apply bind_Done in Hrun as (memoryIndices & st1 & Hindices & Hrun).
  destruct (getMemoryIndices_Done _ _ _ _ _ _ _ Hindices) as (indexOps & Hindex & ->).
  unfold TransferRead_accessUnit in Hrun. rewrite Hwidth in Hrun.
  cbn [lift] in Hrun. rewrite bind_ret_l in Hrun.
  cbv [bind create ret] in Hrun. inversion Hrun. clear Hrun.
  split; [reflexivity|]. eexists. split.
  - exists indexOps, memoryIndices, accumulator, (computeSIMTIndex state).
    split; [exact Hindex | reflexivity].
  - unfold addCreated. cbn [created replaced erased]. by rewrite <- !app_assoc.
Qed.

Lemma isReadUnit_counts unitType source ops :
  isReadUnit unitType source ops ->
  countNamed "vector.load" ops = 1%nat
  /\ countNamed "vector.insert_strided_slice" ops = 1%nat
  /\ countNamed "vector.store" ops = 0%nat
  /\ Forall (fun op => getName op = "vector.load"%string ->
                       getResultTypes op = [unitType]
                       /\ head (getOperands op) = Some source) ops.
Proof.
  intros (indexOps & memoryIndices & accumulator & accIndices & Hindex & ->).
  rewrite !countNamed_app.
  rewrite !(countNamed_index_ops _ _ Hindex)
    by (cbn; intuition discriminate).
  repeat split; try reflexivity.
  apply Forall_app. split.
  - eapply Forall_impl; [exact Hindex|]. intros op Hop Hname.
    unfold isIndexOp in Hop. rewrite Hname in Hop.
    cbn in Hop. intuition discriminate.
  - apply Forall_cons; split; [intros _; by split|].
    apply Forall_cons; split; [intros Hname; discriminate | constructor].
Qed.

(** X15: what a successful transfer read consists of.  The value has a
    [LayoutAttr]; the reduction of the permutation map, the permuted
    (memory) layout and the load width exist.  The first operation created
    is the zero constant of the distributed shape with the element type of
    the source.  For every state the iterator visits there is exactly one
    [vector.load], of [width] elements of that element type and from the
    source of the read, and one insertion into the accumulator; no store is
    created.  The read is recorded as replaced by one value of the
    distributed vector type (the zero constant itself when no state is
    visited), and nothing is erased. *)
Theorem DistributeTransferRead_rewrite_shape
  (NDEBUG : bool) (laneId : Value)
  (visit : LayoutAttr -> list (LayoutDimension * Z) -> list State)
  (computeSIMTIndex : State -> list Z)
  (readOp : TransferReadOp) (signature : DistributionSignature)
  (st st' : RewriterState) :
  DistributeTransferRead_matchAndRewrite NDEBUG laneId visit computeSIMTIndex
    readOp signature st = Done success st' ->
  exists vectorLayout permutation memoryLayout width readVec,
    dyn_cast_LayoutAttr (signature (TransferReadOp_getResult readOp)) = Some vectorLayout
    /\ getReducedPermutation NDEBUG (read_permutation_map readOp) = Returned permutation
    /\ permute vectorLayout permutation = Returned memoryLayout
    /\ getLoadStoreWidth memoryLayout = Returned width
    /\ let visited := visit vectorLayout [(VECTORX, width)] in
       let elementType := getElementType (getType (read_source readOp)) in
       let vectorType :=
         VectorType (LayoutAttr_getDistributedShape vectorLayout) elementType in
       let zero := arith_ConstantOp vectorType (getZeroAttr vectorType) in
       created st' = created st ++ newOps st st'
       /\ head (newOps st st') = Some zero
       /\ countNamed "vector.load" (newOps st st') = length visited
       /\ countNamed "vector.insert_strided_slice" (newOps st st') = length visited
       /\ countNamed "vector.store" (newOps st st') = 0%nat
       /\ Forall (fun op => getName op = "vector.load"%string ->
                            getResultTypes op = [VectorType [width] elementType]
                            /\ head (getOperands op) = Some (read_source readOp))
                 (newOps st st')
       /\ getType readVec = vectorType
       /\ (visited = [] -> readVec = getResult zero 0)
       /\ replaced st' = replaced st ++ [(TransferReadOp_operation readOp, [readVec])]
       /\ erased st' = erased st.
Proof.
  intros Hrun. unfold DistributeTransferRead_matchAndRewrite in Hrun.
  destruct (dyn_cast_LayoutAttr (signature (TransferReadOp_getResult readOp)))
    as [vectorLayout|]; [|discriminate].
  set (elementType := getElementType (getType (read_source readOp))) in *.
  set (vectorType := VectorType (LayoutAttr_getDistributedShape vectorLayout) elementType)
    in *.
  set (zero := arith_ConstantOp vectorType (getZeroAttr vectorType)) in *.
  rewrite (bind_run _ _ _ _ _ (create_addCreated zero st)) in Hrun.
  apply bind_Done in Hrun as (readVec & st2 & Haccess & Hrun).
  cbv [bind replaceOpWithDistributedValues ret] in Hrun. inversion Hrun. clear Hrun.
  unfold accessMemory in Haccess.
  cbn [getPermutationMap getIndices accessUnit TransferReadOp_XferOp] in Haccess.
  apply bind_Done in Haccess as (permutation & s1 & Hperm & Haccess).
  apply lift_Done in Hperm as [Hperm ->].
  apply bind_Done in Haccess as (memoryLayout & s2 & Hmem & Haccess).
  apply lift_Done in Hmem as [Hmem ->].
  apply bind_Done in Haccess as (width & s3 & Hwidth & Haccess).
  apply lift_Done in Hwidth as [Hwidth ->].
  apply (foldM_units _ (fun a => getType a = vectorType)
           (isReadUnit (VectorType [width] elementType) (read_source readOp)))
    in Haccess as (Htype & Hempty & units & Hunits & Hlen & ->); [| |reflexivity].
  2:{ intros a x s a' s' Ha Hstep.
      destruct (read_unit _ _ _ _ _ _ _ _ _ _ _ Hwidth Hstep) as (Ha' & ops & Hops & Hs').
      split; [congruence|]. exists ops. split; [|exact Hs'].
      rewrite Ha in Hops. exact Hops. }
  exists vectorLayout, permutation, memoryLayout, width, readVec.
  repeat (split; [assumption || reflexivity|]).
  unfold newOps. cbn [created replaced erased addCreated].
  rewrite <- !app_assoc, drop_app_length.
  assert (Hcounts : Forall (fun ops =>
            countNamed "vector.load" ops = 1%nat
            /\ countNamed "vector.insert_strided_slice" ops = 1%nat
            /\ countNamed "vector.store" ops = 0%nat
            /\ Forall (fun op => getName op = "vector.load"%string ->
                         getResultTypes op = [VectorType [width] elementType]
                         /\ head (getOperands op) = Some (read_source readOp)) ops)
            units).
  { eapply Forall_impl; [exact Hunits|]. intros ops. apply isReadUnit_counts. }
  split; [reflexivity|]. split; [reflexivity|].
  rewrite !countNamed_app.
  rewrite (countNamed_concat "vector.load" 1),
          (countNamed_concat "vector.insert_strided_slice" 1),
          (countNamed_concat "vector.store" 0)
    by (eapply Forall_impl; [exact Hcounts|]; intros ops Hops; apply Hops).
  rewrite Hlen. cbn [countNamed List.map List.filter getName zero arith_ConstantOp].
  split; [cbn; lia|]. split; [cbn; lia|]. split; [cbn; lia|].
  split.
  { apply Forall_app. split.
    - apply Forall_cons; split; [intros Hname; discriminate | constructor].
    - apply Forall_concat. eapply Forall_impl; [exact Hcounts|].
      intros ops Hops. apply Hops. }
  repeat split; assumption.
Qed.

Lemma DistributeTransferRead_rewrite_shape_witness :
  exists st',
    DistributeTransferRead_matchAndRewrite false (Existing 0 (Scalar IndexType))
      visitTwo localIndex transposeRead transposeSignature emptyRewriterState
    = Done success st'
    /\ countNamed "vector.load" (newOps emptyRewriterState st') = 2%nat
    /\ countNamed "vector.store" (newOps emptyRewriterState st') = 0%nat
    /\ erased st' = [].
Proof.
  destruct (DistributeTransferRead_matchAndRewrite false (Existing 0 (Scalar IndexType))
              visitTwo localIndex transposeRead transposeSignature emptyRewriterState)
    as [[|] st'|f] eqn:Hrun; [|vm_compute in Hrun; discriminate
                              |vm_compute in Hrun; discriminate].
  exists st'. split; [reflexivity|].
  destruct (DistributeTransferRead_rewrite_shape _ _ _ _ _ _ _ _ Hrun)
    as (vectorLayout & permutation & memoryLayout & width & readVec
        & Hlayout & Hperm & Hmem & Hwidth & _ & _ & Hloads & _ & Hstores & _ & _ & _
        & _ & Herased).
  inversion Hlayout. subst vectorLayout. split; [exact Hloads|].
  split; [exact Hstores | exact Herased].
Defined.









Lemma reduceResults_Returned NDEBUG leading results permutation :
  reduceResults NDEBUG leading results = Returned permutation ->
  length permutation = length results
  /\ Forall (fun e => 0 <= e < 2 ^ 32) permutation
  /\ forallb (fun e => match e with AffineDimExpr _ => true | _ => false end) results
     = true.
Proof.
  revert permutation. induction results as [|e results IH]; intros permutation Hrun.
  - inversion Hrun. repeat split. constructor.
  - destruct e as [p| | |]; try discriminate.
    cbn [reduceResults] in Hrun.
    destruct (assertUnless NDEBUG (leading <=? Z.of_nat p) "invalid permutation map");
      [|discriminate].
    destruct (reduceResults NDEBUG leading results) as [perm|f]; [|discriminate].
    inversion Hrun. destruct (IH perm eq_refl) as (Hlen & Hall & Hdims).
    cbn [length forallb andb]. split; [lia|]. split; [|exact Hdims].
    constructor; [|exact Hall]. unfold wrapUnsigned. apply Z.mod_pos_bound. lia.
Qed.

(** X18: in either build, whatever the reduction returns has one entry per
    result of the map, every entry is a value of type [unsigned], and every
    result of the map is a direct reference to a dimension. *)
Theorem getReducedPermutation_Returned
  (NDEBUG : bool) (m : AffineMap) (permutation : list Z) :
  getReducedPermutation NDEBUG m = Returned permutation ->
  length permutation = getNumResults m
  /\ Forall (fun e => 0 <= e < 2 ^ 32) permutation
  /\ allDimExprs m = true.
Proof.
  unfold getReducedPermutation. intros Hrun.
  destruct (assertUnless NDEBUG (isProjectedPermutation m)
              "permutation map should be a projected permutation."); [|discriminate].
  by apply reduceResults_Returned in Hrun.
Qed.

Lemma getReducedPermutation_Returned_witness :
  length [4294967295; 1] = 2%nat
  /\ Forall (fun e => 0 <= e < 2 ^ 32) [4294967295; 1]
  /\ allDimExprs (mkAffineMap 3 0 [AffineDimExpr 0; AffineDimExpr 2]) = true.
Proof.
  exact (getReducedPermutation_Returned true
           (mkAffineMap 3 0 [AffineDimExpr 0; AffineDimExpr 2]) [4294967295; 1] eq_refl).
Defined.

(** ** Distinct iterations access distinct memory *)

Lemma addresses_differ layout coords state1 state2 label :
  positiveExtents layout = true ->
  stateOver layout state1 = true ->
  stateOver layout state2 = true ->
  isLane label = false ->
  State_lookup state1 label <> State_lookup state2 label ->
  List.map (mixedRadixAddress state1 coords) (getLayouts layout)
  <> List.map (mixedRadixAddress state2 coords) (getLayouts layout).
Proof.
  intros Hpos Hover1 Hover2 Hnl Hdiff Heq.
  assert (Hin : In label (layoutLabels layout)).
  { destruct (Z.eq_dec (State_lookup state1 label) 0) as [Hz|Hnz].
    - apply (stateOver_labels layout state2); [assumption|]. congruence.
    - by apply (stateOver_labels layout state1). }
  unfold layoutLabels in Hin. apply in_flat_map in Hin as (d & Hd & Hin).
  apply in_map_iff in Hin as ([l extent] & Hl & Hin). cbn in Hl. subst l.
  assert (Hsame : mixedRadixAddress state1 coords d = mixedRadixAddress state2 coords d).
  { clear - Heq Hd. induction (getLayouts layout) as [|d' ds IH]; [destruct Hd|].
    cbn [List.map] in Heq. injection Heq as Hhead Htail.
    destruct Hd as [->|Hd]; [exact Hhead | by apply IH]. }
  apply Hdiff. rewrite !mixedRadixAddress_horner in Hsame.
  apply (hornerValue_injective state1 state2 coords (rev (entries d)))
    with (extent := extent).
  - unfold positiveExtents in Hpos. rewrite forallb_forall in Hpos.
    specialize (Hpos _ Hd). rewrite forallb_forall in *.
    intros e He. apply Hpos. by apply in_rev.
  - by apply (stateOver_inRange layout).
  - by apply (stateOver_inRange layout).
  - exact Hsame.
  - by apply in_rev in Hin.
  - assumption.
Qed.

Lemma zip_with_add_cancel (xs ys1 ys2 : list Z) :
  length ys1 = length xs -> length ys2 = length xs ->
  zip_with Z.add xs ys1 = zip_with Z.add xs ys2 -> ys1 = ys2.
Proof.
  revert ys1 ys2. induction xs as [|x xs IH]; intros [|y1 ys1] [|y2 ys2] H1 H2 Heq;
    try discriminate; [reflexivity|].
  cbn [zip_with] in Heq. injection Heq as Hhead Htail.
  f_equal; [lia|]. apply IH; [by inversion H1 | by inversion H2 | exact Htail].
Qed.

Lemma map_Some_inj (l1 l2 : list Z) : List.map Some l1 = List.map Some l2 -> l1 = l2.
Proof.
  revert l2. induction l1 as [|x l1 IH]; intros [|y l2] Heq; try discriminate;
    [reflexivity|].
  cbn [List.map] in Heq. injection Heq as -> Htail. f_equal. by apply IH.
Qed.

(** X19: two iterations at different positions access different memory.
    For a memory layout with positive extents, a fixed lane and base
    indices, if two iteration states over the layout differ in the position
    of a non-lane label, the run-time values of the memory indices
    [getMemoryIndices] computes for them are not the same. *)
Theorem getMemoryIndices_distinct_per_state
  (laneId : Value) (memoryLayout : LayoutAttr) (indices : list Value)
  (env : nat -> Z) (lane : Z) (bases : list Z)
  (state1 state2 : State) (st1 st2 : RewriterState) (label : LayoutDimension) :
  evalValue env laneId = Some lane ->
  List.map (evalValue env) indices = List.map Some bases ->
  (length (getLayouts memoryLayout) <= length indices)%nat ->
  positiveExtents memoryLayout = true ->
  stateOver memoryLayout state1 = true ->
  stateOver memoryLayout state2 = true ->
  isLane label = false ->
  State_lookup state1 label <> State_lookup state2 label ->
  exists memoryIndices1 st1' memoryIndices2 st2',
    getMemoryIndices laneId state1 memoryLayout indices st1 = Done memoryIndices1 st1'
    /\ getMemoryIndices laneId state2 memoryLayout indices st2 = Done memoryIndices2 st2'
    /\ List.map (evalValue env) memoryIndices1 <> List.map (evalValue env) memoryIndices2.
Proof.
  intros Hlane Hbases Hlen Hpos Hover1 Hover2 Hnl Hdiff.
  eexists _, _, _, _. split; [by apply getMemoryIndices_run|].
  split; [by apply getMemoryIndices_run|].
  set (leading := (length indices - length (getLayouts memoryLayout))%nat).
  intros Heq.
  apply (addresses_differ memoryLayout (laneCoordinates memoryLayout lane)
           state1 state2 label); try assumption.
  assert (Hsums : forall state,
    List.map (evalValue env)
      (List.map (fun sum => getResult sum 0)
         (addressSums (drop leading indices)
            (List.map (fun d => getResult (simdIndexOp state memoryLayout laneId d) 0)
                      (getLayouts memoryLayout))))
    = List.map Some
        (zip_with Z.add (drop leading bases)
           (List.map (mixedRadixAddress state (laneCoordinates memoryLayout lane))
                     (getLayouts memoryLayout)))).
  { intros state. apply evalValue_addressSums.
    - change (@List.map) with (@fmap list _) in *. by rewrite !fmap_drop, Hbases.
    - rewrite !List.map_map. apply List.map_ext. intros d.
      by apply evalValue_simdIndex. }
  rewrite !List.map_app in Heq. apply app_inv_head in Heq.
  rewrite !Hsums in Heq. apply map_Some_inj in Heq.
  assert (Hbaselen : length (drop leading bases) = length (getLayouts memoryLayout)).
  { rewrite length_drop.
    assert (length bases = length indices).
    { apply (f_equal length) in Hbases. by rewrite !List.length_map in Hbases. }
    unfold leading. lia. }
  apply (zip_with_add_cancel (drop leading bases));
    [by rewrite List.length_map | by rewrite List.length_map | exact Heq].
Qed.

Lemma getMemoryIndices_distinct_per_state_witness :
  let laneId := Existing 0 (Scalar IndexType) in
  let indices := [Existing 2 (Scalar IndexType); Existing 3 (Scalar IndexType)] in
  exists memoryIndices1 st1' memoryIndices2 st2',
    getMemoryIndices laneId [(VECTORX, 0); (OTHER 0, 0)] transposeLayout indices
      emptyRewriterState = Done memoryIndices1 st1'
    /\ getMemoryIndices laneId [(VECTORX, 0); (OTHER 0, 1)] transposeLayout indices
         emptyRewriterState = Done memoryIndices2 st2'
    /\ List.map (evalValue (fun _ => 0)) memoryIndices1
       <> List.map (evalValue (fun _ => 0)) memoryIndices2.
Proof.
  apply (getMemoryIndices_distinct_per_state
           (Existing 0 (Scalar IndexType)) transposeLayout
           [Existing 2 (Scalar IndexType); Existing 3 (Scalar IndexType)]
           (fun _ => 0) 0 [0; 0]
           [(VECTORX, 0); (OTHER 0, 0)] [(VECTORX, 0); (OTHER 0, 1)]
           emptyRewriterState emptyRewriterState (OTHER 0));
    [reflexivity | reflexivity | cbn; lia | reflexivity | reflexivity | reflexivity
     | reflexivity | discriminate].
Defined.
